(** * Galician dictionary extractor: a shallow embedding of
      [src/galician-dictionary.ts] and the properties of its parser.

    The TypeScript class [GalicianDictionary] fetches a JSON payload, picks the
    first item ([parseResponse]), parses its HTML fragment with cheerio and
    walks the resulting DOM with CSS-class selectors ([parseHtmlContent],
    [extractReferences]).

    Modelling choices.
    - A JavaScript string is the list of its UTF-16 code units.
    - The DOM produced by [cheerio.load] is a tree of text, comment and element
      nodes; an element carries its tag name and its class tokens, which is all
      the selectors of the source look at.  A node is identified by its path
      from the document root, as the source identifies it by object identity.
    - [extractReferences] calls [.children().remove()] on the live DOM.  The
      removal is modelled by a store of detached nodes: a detached node is no
      longer a child of its former parent but keeps its own subtree, exactly
      as cheerio leaves it.  The store is threaded through every loop of the
      source in the order the callbacks run.
    - [console.warn] / [console.error] calls only log, they are left out. *)

From Stdlib Require Import String Ascii List NArith Bool Arith Lia.
From Stdlib Require Import Floats.PrimFloat.
Import ListNotations.

Local Open Scope list_scope.
#[local] Set Warnings "-register-all".

(* ------------------------------------------------------------------ *)
(** ** JavaScript strings *)

Module Js.

Definition jsstring : Type := list N.

(** An ASCII literal as code units. *)
Definition lit (s : string) : jsstring :=
  map N_of_ascii (list_ascii_of_string s).

Fixpoint eqb (a b : jsstring) : bool :=
  match a, b with
  | [], [] => true
  | x :: a', y :: b' => N.eqb x y && eqb a' b'
  | _, _ => false
  end.

(** JavaScript truthiness of a string: [!s] holds exactly for the empty string. *)
Definition isEmpty (s : jsstring) : bool :=
  match s with [] => true | _ :: _ => false end.

(** [s || undefined] *)
Definition orUndefined (s : jsstring) : option jsstring :=
  if isEmpty s then None else Some s.

(** ECMAScript WhiteSpace and LineTerminator code units, the ones
    [String.prototype.trim] strips. *)
Definition isWhiteSpace (c : N) : bool :=
  ((9 <=? c) && (c <=? 13) || (c =? 32) || (c =? 160) || (c =? 5760)
   || (8192 <=? c) && (c <=? 8202) || (c =? 8232) || (c =? 8233)
   || (c =? 8239) || (c =? 8287) || (c =? 12288) || (c =? 65279))%N.

Fixpoint trimStart (s : jsstring) : jsstring :=
  match s with
  | [] => []
  | c :: r => if isWhiteSpace c then trimStart r else s
  end.

Definition trimEnd (s : jsstring) : jsstring := rev (trimStart (rev s)).

Definition trim (s : jsstring) : jsstring := trimEnd (trimStart s).

Fixpoint startsWith (s p : jsstring) {struct p} : bool :=
  match p with
  | [] => true
  | y :: p' =>
      match s with
      | [] => false
      | x :: s' => N.eqb x y && startsWith s' p'
      end
  end.

Fixpoint includes (s p : jsstring) : bool :=
  startsWith s p ||
  match s with
  | [] => false
  | _ :: s' => includes s' p
  end.

(** [s.replace(pat, rep)] with a string pattern: only the first occurrence of
    [pat] is replaced. *)
Fixpoint replace (s pat rep : jsstring) : jsstring :=
  if startsWith s pat then rep ++ skipn (length pat) s
  else match s with
       | [] => []
       | c :: r => c :: replace r pat rep
       end.

End Js.

Import Js.

(* ------------------------------------------------------------------ *)
(** ** The DOM and the cheerio operations the source uses *)

Module Dom.

Inductive node : Type :=
| Text (data : jsstring)
| Comment (data : jsstring)
| Elem (name : jsstring) (classes : list jsstring) (children : list node).

(** A node is named by the child indices leading to it from the root. *)
Definition path : Type := list nat.

Fixpoint path_eqb (p q : path) : bool :=
  match p, q with
  | [], [] => true
  | i :: p', j :: q' => Nat.eqb i j && path_eqb p' q'
  | _, _ => false
  end.

(** The store of nodes that [.remove()] has cut off from their parent. *)
Definition detset : Type := list path.

Definition detached (det : detset) (p : path) : bool :=
  existsb (path_eqb p) det.

Fixpoint nodeAt (n : node) (p : path) : option node :=
  match p with
  | [] => Some n
  | i :: q =>
      match n with
      | Elem _ _ ks =>
          match nth_error ks i with
          | Some k => nodeAt k q
          | None => None
          end
      | _ => None
      end
  end.

Section Indexed.
Context {A : Type} (f : nat -> node -> list A).

(** Concatenate [f i k] over the children [k] of a node, [i] being the
    index of [k]. *)
Fixpoint mapiCat (i : nat) (l : list node) : list A :=
  match l with
  | [] => []
  | k :: l' => f i k ++ mapiCat (S i) l'
  end.
End Indexed.

(** [.children()]: the element children still attached to the node at [p]. *)
Definition childElems (det : detset) (p : path) (n : node) : list path :=
  match n with
  | Elem _ _ ks =>
      mapiCat (fun i k =>
                 match k with
                 | Elem _ _ _ => if detached det (p ++ [i]) then [] else [p ++ [i]]
                 | _ => []
                 end) 0 ks
  | _ => []
  end.

(** The element descendants of the node at [p], in document order, following
    only the links that are still there. *)
Fixpoint descend (det : detset) (p : path) (n : node) {struct n} : list path :=
  match n with
  | Elem _ _ ks =>
      mapiCat (fun i k =>
                 match k with
                 | Elem _ _ _ =>
                     if detached det (p ++ [i]) then []
                     else (p ++ [i]) :: descend det (p ++ [i]) k
                 | _ => []
                 end) 0 ks
  | _ => []
  end.

(** [.text()] of one node: the data of its text descendants, in order;
    comments contribute nothing. *)
Fixpoint textOf (det : detset) (p : path) (n : node) {struct n} : jsstring :=
  match n with
  | Text d => d
  | Comment _ => []
  | Elem _ _ ks =>
      mapiCat (fun i k =>
                 match k with
                 | Elem _ _ _ =>
                     if detached det (p ++ [i]) then []
                     else textOf det (p ++ [i]) k
                 | _ => textOf det (p ++ [i]) k
                 end) 0 ks
  end.

(** The text lying directly in a node: its text children only. *)
Definition ownText (n : node) : jsstring :=
  match n with
  | Elem _ _ ks =>
      mapiCat (fun _ k => match k with Text d => d | _ => [] end) 0 ks
  | _ => []
  end.

(** A document together with its store of detached nodes. *)
Record dom : Type := mkDom { root : node; det : detset }.

Definition textAt (d : dom) (p : path) : jsstring :=
  match nodeAt (root d) p with
  | Some n => textOf (det d) p n
  | None => []
  end.

(** [.text()] of a selection concatenates the text of each selected node. *)
Definition textSel (d : dom) (sel : list path) : jsstring :=
  concat (map (textAt d) sel).

(** [.first()] *)
Definition first (sel : list path) : list path :=
  match sel with
  | [] => []
  | p :: _ => [p]
  end.

(** *** Selectors *)

Definition hasClass (c : jsstring) (n : node) : bool :=
  match n with
  | Elem _ cs _ => existsb (Js.eqb c) cs
  | _ => false
  end.

Definition hasName (t : jsstring) (n : node) : bool :=
  match n with
  | Elem nm _ _ => Js.eqb t nm
  | _ => false
  end.

(** A compound selector: [.c] or [t.c]. *)
Inductive simple : Type :=
| Cls (c : jsstring)
| TagCls (t c : jsstring).

Definition matchSimple (s : simple) (n : node) : bool :=
  match s with
  | Cls c => hasClass c n
  | TagCls t c => hasName t n && hasClass c n
  end.

(** The four selector shapes of the source. *)
Inductive selector : Type :=
| Sel (s : simple)              (* ".c"        *)
| SelDesc (anc s : simple)      (* ".a .c"     *)
| SelChild (par s : simple)     (* ".a > .c"   *)
| SelScopeChild (s : simple).   (* "> .c"      *)

Definition matchAt (r : node) (s : simple) (p : path) : bool :=
  match nodeAt r p with
  | Some n => matchSimple s n
  | None => false
  end.

(** The proper ancestors of [q] from [ctx] down, [ctx] itself included. *)
Definition between (ctx q : path) : list path :=
  map (fun k => firstn k q) (seq (length ctx) (length q - length ctx)).

(** Does the descendant [q] of the context [ctx] match?  Cheerio searches
    the descendants of the context and lets the first compound of a selector
    such as ".a .c" or ".a > .c" be matched by the context element itself as
    well as by a node below it; nothing above the context is looked at.  A
    selector that starts with ">" takes the children of the context. *)
Definition matches (r : node) (ctx : path) (s : selector) (q : path) : bool :=
  match s with
  | Sel c => matchAt r c q
  | SelDesc a c => matchAt r c q && existsb (matchAt r a) (between ctx q)
  | SelChild a c =>
      matchAt r c q && (length ctx <? length q) && matchAt r a (removelast q)
  | SelScopeChild c => matchAt r c q && (length q =? S (length ctx))
  end.

(** [$(ctx).find(selector)] *)
Definition find (d : dom) (ctx : path) (s : selector) : list path :=
  match nodeAt (root d) ctx with
  | Some n => filter (matches (root d) ctx s) (descend (det d) ctx n)
  | None => []
  end.

(** [.find] on a selection. *)
Definition findSel (d : dom) (sel : list path) (s : selector) : list path :=
  concat (map (fun ctx => find d ctx s) sel).

(** [.parent()]: none for the root and for a detached node. *)
Definition parentOf (d : dom) (p : path) : option path :=
  match p with
  | [] => None
  | _ :: _ => if detached (det d) p then None else Some (removelast p)
  end.

(** [.siblings(".c")]: the other element children of the parent carrying the
    class. *)
Definition siblings (d : dom) (p : path) (s : simple) : list path :=
  match parentOf d p with
  | Some par =>
      match nodeAt (root d) par with
      | Some n =>
          filter (fun q => negb (path_eqb q p) && matchAt (root d) s q)
                 (childElems (det d) par n)
      | None => []
      end
  | None => []
  end.

(** [$(p).children().remove()]: every element child of the node at [p] is
    cut off from it.  The DOM itself changes, for every later query. *)
Definition removeChildren (d : dom) (p : path) : dom :=
  match nodeAt (root d) p with
  | Some n => mkDom (root d) (det d ++ childElems (det d) p n)
  | None => d
  end.

End Dom.

Import Dom.

(* ------------------------------------------------------------------ *)
(** ** The data model ([Definition], [DictionaryEntry]) *)

Inductive ReferenceType : Type := SYNONYM | SEE | COMPARE.

Record Reference : Type := mkReference {
  type : ReferenceType;
  words : list jsstring
}.

(** The interface [Definition] of the source. *)
Record DefinitionEntry : Type := mkDefinition {
  sense : option jsstring;
  definition : jsstring;
  examples : list jsstring;
  references : option Reference
}.

Record Expression : Type := mkExpression {
  expression : jsstring;
  exprDefinitions : list DefinitionEntry
}.

Record DictionaryEntry : Type := mkEntry {
  word : jsstring;
  partOfSpeech : option jsstring;
  definitions : list DefinitionEntry;
  expressions : list Expression
}.

(* ------------------------------------------------------------------ *)
(** ** The markers and labels of the source *)

Module Marker.

Definition Subentry := lit "Subentry".
Definition Entry__Word_form := lit "Entry__Word_form".
Definition h2 := lit "h2".
Definition Subentry__Part_of_speech := lit "Subentry__Part_of_speech".
Definition Sense := lit "Sense".
Definition Sense__SenseNumber := lit "Sense__SenseNumber".
Definition Definition__Definition := lit "Definition__Definition".
Definition Example__Example := lit "Example__Example".
Definition Example := lit "Example".
Definition DefinitionBlock := lit "Definition".
Definition Fraseoloxia := lit "Fraseoloxia".
Definition Fraseoloxia__Texto := lit "Fraseoloxia__Texto".
Definition References := lit "References".
Definition Reference__Reference_type := lit "Reference__Reference_type".
Definition a := lit "a".
Definition ReferenceLink := lit "Reference".

(** The labels carry accented capitals: O acute is U+00D3 (211), E acute is
    U+00C9 (201). *)
Definition SINONIMO : jsstring := lit "SIN" ++ 211%N :: lit "NIMO".
Definition SINONIMOS : jsstring := lit "SIN" ++ 211%N :: lit "NIMOS".
Definition VEXASE : jsstring := lit "V" ++ 201%N :: lit "XASE".
Definition CONFRONTESE : jsstring := lit "CONFR" ++ 211%N :: lit "NTESE".
Definition PalabrasRelacionadas : jsstring := lit "Palabras relacionadas:".
Definition dot : jsstring := lit ".".

End Marker.

(* ------------------------------------------------------------------ *)
(** ** [extractReferences] (lines 271-317) *)

(** Lines 285-298: the type of a block from its label, [refText]. *)
Definition classifyLabel (refText : jsstring) : option ReferenceType :=
  if startsWith refText Marker.SINONIMO || startsWith refText Marker.SINONIMOS
  then Some SYNONYM
  else if startsWith refText Marker.VEXASE then Some SEE
  else if startsWith refText Marker.CONFRONTESE then Some COMPARE
  else None.

(** Lines 293-297: the type from the text of the type span. *)
Definition classifyTypeSpan (typeSpan : jsstring) : option ReferenceType :=
  if includes typeSpan Marker.SINONIMO then Some SYNONYM
  else if includes typeSpan Marker.VEXASE then Some SEE
  else if includes typeSpan Marker.CONFRONTESE then Some COMPARE
  else None.

(** The text the source reads into [typeSpan] at line 293. *)
Definition typeSpanText (d : dom) (referencesElement : path) : jsstring :=
  trim (textSel d (find d referencesElement
                        (Sel (Cls Marker.Reference__Reference_type)))).

Definition blockType (d : dom) (referencesElement : path) (refText : jsstring)
  : option ReferenceType :=
  match classifyLabel refText with
  | Some t => Some t
  | None => classifyTypeSpan (typeSpanText d referencesElement)
  end.

(** Lines 301-305: the non-empty trimmed texts of the [a.Reference] links. *)
Definition collectWords (d : dom) (referencesElement : path) : list jsstring :=
  filter (fun w => negb (isEmpty w))
         (map (fun refEl => trim (textAt d refEl))
              (find d referencesElement
                    (Sel (TagCls Marker.a Marker.ReferenceLink)))).

(** Lines 283-312, on the DOM as it is once line 282 has run. *)
Definition emitReference (d : dom) (referencesElement : path) (refText : jsstring)
  : option Reference :=
  match blockType d referencesElement refText with
  | None => None
  | Some refType =>
      match collectWords d referencesElement with
      | [] => None
      | w :: ws => Some (mkReference refType (w :: ws))
      end
  end.

(** One run of the [.each] callback of line 281.  Line 282 removes the
    children of the block from the DOM and reads the text that is left. *)
Definition referencesStep (acc : list Reference * dom) (referencesElement : path)
  : list Reference * dom :=
  let '(referencesList, d) := acc in
  let d1 := removeChildren d referencesElement in
  let refText := trim (textAt d1 referencesElement) in
  match emitReference d1 referencesElement refText with
  | Some r => (referencesList ++ [r], d1)
  | None => (referencesList, d1)
  end.

Definition extractReferences (d : dom) (contextElement : path)
  : list Reference * dom :=
  fold_left referencesStep
            (find d contextElement (Sel (Cls Marker.References)))
            ([], d).

(* ------------------------------------------------------------------ *)
(** ** [parseHtmlContent] (lines 128-263) *)

(** Lines 157 and 198. *)
Definition senseNumberOf (d : dom) (element : path) : jsstring :=
  replace (trim (textSel d (find d element (Sel (Cls Marker.Sense__SenseNumber)))))
          Marker.dot [].

(** Lines 158, 199 and 224. *)
Definition definitionTextOf (d : dom) (element : path) : jsstring :=
  trim (textSel d (first (find d element (Sel (Cls Marker.Definition__Definition))))).

(** Lines 162-165 and 203-206. *)
Definition examplesOf (d : dom) (element : path) : list jsstring :=
  map (fun exampleEl => trim (textAt d exampleEl))
      (find d element (Sel (Cls Marker.Example__Example))).

(** Lines 170-175 and 211-216: the Definition built from the locals of the
    callback; [references] is the list [extractReferences] returned, of which
    [references[0]] is kept when the list is not empty. *)
Definition senseDefinition (senseNumber definitionText : jsstring)
           (examples : list jsstring) (references : list Reference)
  : DefinitionEntry :=
  mkDefinition (orUndefined senseNumber) definitionText examples
               (match references with
                | [] => None
                | first :: _ => Some first
                end).

(** The callback of lines 156-178, which lines 197-219 repeat word for word
    for the senses of an expression; [extract] stands for the method called
    at lines 168 and 209. *)
Definition senseStepWith (extract : dom -> path -> list Reference * dom)
           (acc : list DefinitionEntry * dom) (element : path)
  : list DefinitionEntry * dom :=
  let '(defs, d) := acc in
  let senseNumber := senseNumberOf d element in
  let definitionText := definitionTextOf d element in
  if isEmpty definitionText then acc
  else
    let examples := examplesOf d element in
    let '(references, d') := extract d element in
    (defs ++ [senseDefinition senseNumber definitionText examples references], d').

(** The callback as the source has it: the method is [this.extractReferences]. *)
Definition senseStep (acc : list DefinitionEntry * dom) (element : path)
  : list DefinitionEntry * dom :=
  senseStepWith extractReferences acc element.

(** The callback of lines 223-240. *)
Definition fallbackStep (acc : list DefinitionEntry * dom) (defEl : path)
  : list DefinitionEntry * dom :=
  let '(defs, d) := acc in
  let definitionText := definitionTextOf d defEl in
  if isEmpty definitionText then acc
  else
    let examples :=
      map (fun exampleEl => trim (textAt d exampleEl))
          (findSel d (siblings d defEl (Cls Marker.Example))
                   (Sel (Cls Marker.Example__Example))) in
    let '(references, d') :=
      match parentOf d defEl with
      | Some parent => extractReferences d parent
      | None => ([], d)
      end in
    (defs ++ [mkDefinition None definitionText examples (hd_error references)], d').

(** Line 183. *)
Definition expressionTextOf (d : dom) (element : path) : jsstring :=
  trim (textSel d (first (find d element (Sel (Cls Marker.Fraseoloxia__Texto))))).

(** The senses line 197 visits. *)
Definition expressionSenses (d : dom) (element : path) : list path :=
  find d element (SelDesc (Cls Marker.Subentry) (Cls Marker.Sense)).

(** Lines 194-241: the definitions of an expression block that was not
    skipped. *)
Definition expressionDefinitionsOf (d : dom) (element : path)
  : list DefinitionEntry * dom :=
  let '(defs, d1) := fold_left senseStep (expressionSenses d element) ([], d) in
  match defs with
  | [] =>
      fold_left fallbackStep
                (find d1 element
                      (SelChild (Cls Marker.Subentry) (Cls Marker.DefinitionBlock)))
                ([], d1)
  | _ :: _ => (defs, d1)
  end.

(** The callback of lines 182-251. *)
Definition expressionStep (acc : list Expression * dom) (element : path)
  : list Expression * dom :=
  let '(exprs, d) := acc in
  let expressionText := expressionTextOf d element in
  if startsWith expressionText Marker.PalabrasRelacionadas then acc
  else if isEmpty expressionText then acc
  else
    let '(expressionDefinitions, d') := expressionDefinitionsOf d element in
    if negb (isEmpty expressionText)
       && negb (Nat.eqb (List.length expressionDefinitions) 0)
    then (exprs ++ [mkExpression expressionText expressionDefinitions], d')
    else (exprs, d').

(** [parseHtmlContent] once [cheerio.load] has produced the document. *)
Definition parseDocument (doc : node) (wordTitle : jsstring) : DictionaryEntry :=
  let d0 := mkDom doc [] in
  let word0 := trim wordTitle in
  let mainEntryBlock := first (find d0 [] (Sel (Cls Marker.Subentry))) in
  let h2Word :=
    trim (textSel d0 (findSel d0 mainEntryBlock
                              (Sel (TagCls Marker.h2 Marker.Entry__Word_form)))) in
  let word1 :=
    if negb (isEmpty h2Word) && negb (Js.eqb h2Word word0) then h2Word else word0 in
  let pos :=
    orUndefined
      (trim (textSel d0 (first (findSel d0 mainEntryBlock
                                        (Sel (Cls Marker.Subentry__Part_of_speech)))))) in
  let '(defs, d1) :=
    fold_left senseStep
              (findSel d0 mainEntryBlock (SelScopeChild (Cls Marker.Sense)))
              ([], d0) in
  let '(exprs, _) :=
    fold_left expressionStep (find d1 [] (Sel (Cls Marker.Fraseoloxia))) ([], d1) in
  mkEntry word1 pos defs exprs.

(* ------------------------------------------------------------------ *)
(** ** The payload and [parseResponse] (lines 90-120) *)

(** The values [response.data] can hold: what [JSON.parse] builds, or a bare
    string or nothing when the body was not JSON. *)
Inductive json : Type :=
| JUndefined
| JNull
| JBool (b : bool)
| JNum (x : float)
| JStr (s : jsstring)
| JArr (items : list json)
| JObj (fields : list (jsstring * json)).

(** [!!v] *)
Definition truthy (v : json) : bool :=
  match v with
  | JUndefined | JNull => false
  | JBool b => b
  | JNum x => negb (is_zero x || is_nan x)
  | JStr s => negb (isEmpty s)
  | JArr _ | JObj _ => true
  end.

(** [typeof v === 'object'] *)
Definition typeofObject (v : json) : bool :=
  match v with
  | JNull | JArr _ | JObj _ => true
  | _ => false
  end.

(** [Array.isArray(v)] *)
Definition isArray (v : json) : bool :=
  match v with
  | JArr _ => true
  | _ => false
  end.

(** The elements of an array value. *)
Definition elements (v : json) : list json :=
  match v with
  | JArr items => items
  | _ => []
  end.

Fixpoint lookup (key : jsstring) (fields : list (jsstring * json)) : option json :=
  match fields with
  | [] => None
  | (k, v) :: rest => if Js.eqb key k then Some v else lookup key rest
  end.

(** [v.key] for a [v] that is neither null nor undefined and a key that no
    prototype defines ("items", "htmlContent", "title"): only an object that
    has the field yields something. *)
Definition getField (v : json) (key : jsstring) : json :=
  match v with
  | JObj fields =>
      match lookup key fields with
      | Some x => x
      | None => JUndefined
      end
  | _ => JUndefined
  end.

(** [v?.key] *)
Definition getOptional (v : json) (key : jsstring) : json :=
  match v with
  | JUndefined | JNull => JUndefined
  | _ => getField v key
  end.

(** A computation that returns or throws. *)
Inductive outcome (A : Type) : Type :=
| Ret (a : A)
| Throw.

Arguments Ret {A} a.
Arguments Throw {A}.

Definition bind {A B : Type} (m : outcome A) (k : A -> outcome B) : outcome B :=
  match m with
  | Ret a => k a
  | Throw => Throw
  end.

(** [try { m } catch (error) { h }] *)
Definition tryCatch {A : Type} (m : outcome A) (h : outcome A) : outcome A :=
  match m with
  | Ret a => Ret a
  | Throw => h
  end.

Notation "x <- m ;; k" := (bind m (fun x => k))
  (at level 61, m at next level, right associativity).

Section Extractor.

(** [cheerio.load] on a string: the HTML parser, which accepts every string. *)
Variable load : jsstring -> node.

(** [cheerio.load] on a value that is not a string.  The parameter is typed
    [string], but the payload is [any]; what the library then does, and
    whether it throws, is left open. *)
Variable loadOther : json -> outcome node.

(** [parseHtmlContent] on the arguments its signature allows. *)
Definition parseHtmlContent (htmlContent wordTitle : jsstring) : DictionaryEntry :=
  parseDocument (load htmlContent) wordTitle.

(** [parseHtmlContent] as [parseResponse] calls it, on untyped values:
    [wordTitle.trim()] throws when [wordTitle] is not a string. *)
Definition parseHtmlContentAny (htmlContent wordTitle : json)
  : outcome DictionaryEntry :=
  doc <- match htmlContent with
         | JStr s => Ret (load s)
         | v => loadOther v
         end ;;
  match wordTitle with
  | JStr t => Ret (parseDocument doc t)
  | _ => Throw
  end.

Definition parseResponse (data : json) (word : jsstring)
  : outcome (option DictionaryEntry) :=
  tryCatch
    (if negb (truthy data) || negb (typeofObject data) then Ret None
     else
       let items := getField data (lit "items") in
       if negb (truthy items) || negb (isArray items)
          || Nat.eqb (List.length (elements items)) 0
       then Ret None
       else
         let item := nth 0 (elements items) JUndefined in
         let htmlContent := getOptional item (lit "htmlContent") in
         let title := getOptional item (lit "title") in
         if negb (truthy htmlContent) then Ret None
         else
           let wordTitle := if truthy title then title else JStr word in
           entry <- parseHtmlContentAny htmlContent wordTitle ;;
           Ret (Some entry))
    (Ret None).

End Extractor.

(* ------------------------------------------------------------------ *)
(** ** [searchWord] (lines 47-82) *)

Module Request.

Definition baseUrl : jsstring := lit "https://academia.gal/dicionario".

Definition portlet : string :=
  "_com_ideit_ragportal_liferay_dictionary_NormalSearchPortlet_".

(** Lines 49-58. *)
Definition params (word : jsstring) : list (jsstring * jsstring) :=
  [(lit "p_p_id", lit "com_ideit_ragportal_liferay_dictionary_NormalSearchPortlet");
   (lit "p_p_lifecycle", lit "2");
   (lit "p_p_state", lit "normal");
   (lit "p_p_mode", lit "view");
   (lit "p_p_cacheability", lit "cacheLevelPage");
   (lit (portlet ++ "cmd"), lit "cmdNormalSearch");
   (lit (portlet ++ "renderMode"), lit "load");
   (lit (portlet ++ "nounTitle"), word)].

(** Lines 60-62. *)
Definition formData (word : jsstring) : list (jsstring * jsstring) :=
  [(lit (portlet ++ "fieldSearchNoun"), word)].

End Request.

(* ------------------------------------------------------------------ *)
(** ** [formatDictionaryEntry] ([src/mcp-server.ts], lines 64-127) *)

Module Phrase.

Definition nl : jsstring := [10%N].
Definition quote : jsstring := [34%N].

(** The phrases of [mcp-server.ts]; their accented letters are a acute
    (225), e acute (233), i acute (237), n tilde (241) and o acute (243). *)
Definition Palabra : jsstring := lit "Palabra: ".
Definition Categoria : jsstring := lit "Categor" ++ 237%N :: lit "a gramatical: ".
Definition Definicions : jsstring := lit "Definici" ++ 243%N :: lit "ns:" ++ nl.
Definition Expresions : jsstring :=
  lit "Expresi" ++ 243%N :: lit "ns e frases feitas:" ++ nl.
Definition Exemplo : jsstring := lit "Exemplo: ".
Definition Sinonimos : jsstring := lit "Sin" ++ 243%N :: lit "nimos".
Definition VexaseTamen : jsstring :=
  lit "V" ++ 233%N :: lit "xase tam" ++ 233%N :: lit "n".
Definition ConfronteseCon : jsstring := lit "Confr" ++ 243%N :: lit "ntese con".
Definition SenDefinicions : jsstring :=
  lit "Non se atoparon definici" ++ 243%N :: lit "ns ou expresi" ++ 243%N
      :: lit "ns espec" ++ 237%N :: lit "ficas para esta entrada (a" ++ 237%N
      :: lit "nda que a palabra existe).".
Definition SenResultados : jsstring :=
  lit "Non se atoparon resultados para a palabra " ++ quote.
Definition NoDicionario : jsstring := quote ++ lit " no dicionario da RAG.".
Definition toolName : jsstring := lit "lookup-galician-word".
Definition FerramentaDesconecida : jsstring :=
  lit "Ferramenta desco" ++ 241%N :: lit "ecida: ".
Definition ArgumentosInvalidos : jsstring :=
  lit "Argumentos inv" ++ 225%N :: lit "lidos: ".
Definition ErroAoBuscar : jsstring :=
  lit "Erro ao buscar a palabra no dicionario: ".
Definition ErroDesconecido : jsstring := lit "Erro desco" ++ 241%N :: lit "ecido".
Definition PalabraBaleira : jsstring := lit "A palabra non pode estar baleira.".

End Phrase.

(** [Array.prototype.join] on an array of strings. *)
Fixpoint join (sep : jsstring) (l : list jsstring) : jsstring :=
  match l with
  | [] => []
  | x :: rest =>
      match rest with
      | [] => x
      | _ :: _ => x ++ sep ++ join sep rest
      end
  end.

(** Lines 87-88 and 113-114. *)
Definition refTypeText (t : ReferenceType) : jsstring :=
  match t with
  | SYNONYM => Phrase.Sinonimos
  | SEE => Phrase.VexaseTamen
  | COMPARE => Phrase.ConfronteseCon
  end.

(** The truthiness of an optional string field: absent and empty are both
    falsy. *)
Definition present (o : option jsstring) : bool :=
  match o with
  | Some s => negb (isEmpty s)
  | None => false
  end.

Definition textOr (o : option jsstring) : jsstring :=
  match o with
  | Some s => s
  | None => []
  end.

(** The callback of lines 75-92, on the [output] built so far. *)
Definition formatMainDefinition (output : jsstring) (def : DefinitionEntry) : jsstring :=
  let output1 :=
    if present (sense def)
    then output ++ textOr (sense def) ++ lit ". " ++ definition def ++ Phrase.nl
    else output ++ lit "- " ++ definition def ++ Phrase.nl in
  let output2 :=
    fold_left (fun out example => out ++ lit "  " ++ Phrase.Exemplo ++ example ++ Phrase.nl)
              (examples def) output1 in
  let output3 :=
    match references def with
    | Some r =>
        output2 ++ lit "  " ++ refTypeText (type r) ++ lit ": "
                ++ join (lit ", ") (words r) ++ Phrase.nl
    | None => output2
    end in
  output3 ++ Phrase.nl.

(** The callback of lines 101-118: the same, two columns further in. *)
Definition formatExpressionDefinition (output : jsstring) (def : DefinitionEntry)
  : jsstring :=
  let output1 :=
    if present (sense def)
    then output ++ lit "  " ++ textOr (sense def) ++ lit ". " ++ definition def
                ++ Phrase.nl
    else output ++ lit "  - " ++ definition def ++ Phrase.nl in
  let output2 :=
    fold_left (fun out example =>
                 out ++ lit "    " ++ Phrase.Exemplo ++ example ++ Phrase.nl)
              (examples def) output1 in
  let output3 :=
    match references def with
    | Some r =>
        output2 ++ lit "    " ++ refTypeText (type r) ++ lit ": "
                ++ join (lit ", ") (words r) ++ Phrase.nl
    | None => output2
    end in
  output3 ++ Phrase.nl.

(** The callback of lines 98-119. *)
Definition formatExpression (output : jsstring) (expr : Expression) : jsstring :=
  fold_left formatExpressionDefinition (exprDefinitions expr)
            (output ++ Phrase.nl ++ lit "* " ++ expression expr ++ lit " *" ++ Phrase.nl).

(** The value of [output] when line 126 is reached. *)
Definition formatOutput (entry : DictionaryEntry) : jsstring :=
  let output0 := Phrase.Palabra ++ word entry ++ Phrase.nl in
  let output1 :=
    if present (partOfSpeech entry)
    then output0 ++ Phrase.Categoria ++ textOr (partOfSpeech entry) ++ Phrase.nl
    else output0 in
  let output2 := output1 ++ Phrase.nl in
  let output3 :=
    if Nat.ltb 0 (List.length (definitions entry))
    then fold_left formatMainDefinition (definitions entry)
                   (output2 ++ Phrase.Definicions)
    else output2 in
  let output4 :=
    if Nat.ltb 0 (List.length (expressions entry))
    then fold_left formatExpression (expressions entry)
                   (output3 ++ Phrase.Expresions)
    else output3 in
  if Nat.eqb (List.length (definitions entry)) 0
     && Nat.eqb (List.length (expressions entry)) 0
  then output4 ++ Phrase.SenDefinicions ++ Phrase.nl
  else output4.

Definition formatDictionaryEntry (entry : DictionaryEntry) : jsstring :=
  trim (formatOutput entry).

(* ------------------------------------------------------------------ *)
(** ** The tool call handler ([src/mcp-server.ts], lines 131-185) *)

(** One issue of a [ZodError]. *)
Record ZodIssue : Type := mkIssue {
  issuePath : list jsstring;
  issueMessage : jsstring
}.

(** What an async handler does: it returns, or it throws [new Error(message)]. *)
Inductive handled (A : Type) : Type :=
| Returned (a : A)
| Raised (message : jsstring).

Arguments Returned {A} a.
Arguments Raised {A} message.

Record ContentItem : Type := mkContent {
  contentType : jsstring;
  text : jsstring
}.

Record CallToolResult : Type := mkResult {
  toolCallId : json;
  content : list ContentItem
}.

(** Line 175. *)
Definition zodErrorMessages (issues : list ZodIssue) : jsstring :=
  join (lit ", ")
       (map (fun e => join (lit ".") (issuePath e) ++ lit ": " ++ issueMessage e)
            issues).

Section Server.

(** [cheerio.load], as in [Extractor]. *)
Variable load : jsstring -> node.
Variable loadOther : json -> outcome node.

(** [new URLSearchParams(record).toString()]: the form encoding of a list of
    pairs of strings. *)
Variable formEncode : list (jsstring * jsstring) -> jsstring.

(** [axios.post(url, body, { headers })] with the headers of lines 28-40:
    the status and the data of the response, or a rejection. *)
Variable post : jsstring -> jsstring -> outcome (N * json).

(** The message Zod gives to a value of the wrong type, from the type that
    was expected and the value received. *)
Variable zodTypeMessage : jsstring -> json -> jsstring.

Definition searchWord (word : jsstring) : outcome (option DictionaryEntry) :=
  tryCatch
    (response <- post (Request.baseUrl ++ lit "?" ++ formEncode (Request.params word))
                      (formEncode (Request.formData word)) ;;
     if negb (N.eqb (fst response) 200) then Ret None
     else parseResponse load loadOther (snd response) word)
    (Ret None).

(** [GalicianWordArgumentsSchema.parse(args)] for the schema of lines 14-16,
    an object whose [word] is a string of length at least 1: the validated
    word, or the issues of the [ZodError] thrown. *)
Definition parseArguments (args : json) : list ZodIssue + jsstring :=
  match args with
  | JObj _ =>
      match getField args (lit "word") with
      | JStr s =>
          if Nat.ltb (List.length s) 1
          then inl [mkIssue [lit "word"] Phrase.PalabraBaleira]
          else inr s
      | v => inl [mkIssue [lit "word"] (zodTypeMessage (lit "string") v)]
      end
  | v => inl [mkIssue [] (zodTypeMessage (lit "object") v)]
  end.

(** The handler of lines 131-185 on the fields of [request.params].  The
    error of a rejected [searchWord] would carry no message here, which line
    183 replaces by its default. *)
Definition callTool (id : json) (name : jsstring) (args : json)
  : handled CallToolResult :=
  if negb (Js.eqb name Phrase.toolName)
  then Raised (Phrase.FerramentaDesconecida ++ name)
  else
    match parseArguments args with
    | inl issues => Raised (Phrase.ArgumentosInvalidos ++ zodErrorMessages issues)
    | inr wordToSearch =>
        match searchWord wordToSearch with
        | Ret entry =>
            let responseText :=
              match entry with
              | Some e => formatDictionaryEntry e
              | None => Phrase.SenResultados ++ wordToSearch ++ Phrase.NoDicionario
              end in
            Returned (mkResult id [mkContent (lit "text") responseText])
        | Throw => Raised (Phrase.ErroAoBuscar ++ Phrase.ErroDesconecido)
        end
    end.

End Server.

(* ------------------------------------------------------------------ *)
(** ** Sample documents *)

Module Sample.

Local Open Scope string_scope.

Definition el (name : string) (classes : list string) (children : list node) : node :=
  Elem (lit name) (map lit classes) children.

Definition txt (s : string) : node := Text (lit s).

(** The root node cheerio puts above the parsed fragment. *)
Definition page (body : list node) : node := el "root" [] body.

(** A document with no marker at all. *)
Definition plain : node :=
  page [el "html" [] [el "body" [] [el "p" [] [txt "nada"]]]].

(** Scenario A of the specification: headword, one numbered sense, one
    example. *)
Definition casa : node :=
  page
     [el "body" []
         [el "div" ["Subentry"]
             [el "h2" ["Entry__Word_form"] [txt "casa"];
              el "span" ["Subentry__Part_of_speech"] [txt " substantivo feminino "];
              el "div" ["Sense"]
                 [el "span" ["Sense__SenseNumber"] [txt "1."];
                  el "span" ["Definition__Definition"] [txt "Edificio para vivir"];
                  el "span" ["Example__Example"] [txt "A casa e grande"]]]]].

(** A sense whose number reads "1.2." *)
Definition dotted : node :=
  el "div" ["Subentry"]
     [el "div" ["Sense"]
         [el "span" ["Sense__SenseNumber"] [txt " 1.2. "];
          el "span" ["Definition__Definition"] [txt "Edificio"]]].


(** A references block: label, type span and two links, one of them empty. *)
Definition synonyms : node :=
  el "div" ["Sense"]
     [el "span" ["Definition__Definition"] [txt "Edificio"];
      el "span" ["References"]
         [Text (Marker.SINONIMOS ++ lit ": ")%list;
          el "a" ["Reference"] [txt "edificio"];
          el "a" ["Reference"] [txt "  "];
          el "a" ["Reference"] [txt " vivenda "]]].

(** A references block whose label sits in an element that is not a link. *)
Definition boldLabel : node :=
  el "div" ["Sense"]
     [el "span" ["References"]
         [el "b" [] [Text Marker.VEXASE];
          el "a" ["Reference"] [txt "can"]]].

(** A page holding one sense with one references block of the given label
    and one link. *)
Definition labelled (label : jsstring) : node :=
  page [el "div" ["Sense"]
           [el "span" ["Definition__Definition"] [txt "Animal"];
            el "span" ["References"]
               [Text label; el "a" ["Reference"] [txt "can"]]]].

(** An expression whose sense has no sub-entry container around it. *)
Definition bareSense : node :=
  el "div" ["Fraseoloxia"]
     [el "span" ["Fraseoloxia__Texto"] [txt "de casa"];
      el "div" ["Sense"]
         [el "span" ["Definition__Definition"] [txt "Propio do fogar"]]].

(** An expression with a sub-entry container holding one sense. *)
Definition boxedSense : node :=
  el "div" ["Fraseoloxia"]
     [el "span" ["Fraseoloxia__Texto"] [txt "de casa"];
      el "div" ["Subentry"]
         [el "div" ["Sense"]
             [el "span" ["Definition__Definition"] [txt "Propio do fogar"]]]].

(** An expression block that is itself the sub-entry container of its
    sense. *)
Definition selfBoxed : node :=
  el "div" ["Fraseoloxia"; "Subentry"]
     [el "span" ["Fraseoloxia__Texto"] [txt "de casa"];
      el "div" ["Sense"]
         [el "span" ["Definition__Definition"] [txt "Propio do fogar"]]].

(** An expression block that is itself the sub-entry container of a
    definition without a sense, with an example beside it. *)
Definition selfDefined : node :=
  el "div" ["Fraseoloxia"; "Subentry"]
     [el "span" ["Fraseoloxia__Texto"] [txt "na casa"];
      el "div" ["Definition"]
         [el "span" ["Definition__Definition"] [txt "No fogar"]];
      el "div" ["Example"]
         [el "span" ["Example__Example"] [txt " Quedou na casa "]]].

(** The footer block that shares the expression marker. *)
Definition related : node :=
  el "div" ["Fraseoloxia"]
     [el "span" ["Fraseoloxia__Texto"] [txt "Palabras relacionadas: fogar, vivenda"];
      el "div" ["Subentry"]
         [el "div" ["Sense"]
             [el "span" ["Definition__Definition"] [txt "Lugar"]]]].

(** A payload whose first item has a markup fragment and the given title;
    a second item follows. *)
Definition payload (title : json) : json :=
  JObj [(lit "total", JNum 2%float);
        (lit "items",
         JArr [JObj [(lit "htmlContent", JStr (lit "<div class=Subentry>"));
                     (lit "title", title)];
               JObj [(lit "htmlContent", JStr (lit "<p>"))]])].

(** A payload whose only item has a markup fragment and no title. *)
Definition untitled : json :=
  JObj [(lit "items", JArr [JObj [(lit "htmlContent", JStr (lit "<div>"))]])].

(** The arguments of a call for the given word. *)
Definition arguments (w : json) : list (jsstring * json) := [(lit "word", w)].

End Sample.

(* ------------------------------------------------------------------ *)
(** ** The specification's wording, where it is compared with the code *)

Module Spec.

(** The label of a references block as the specification words it: the text
    content of the block, nested link elements excluded. *)
Fixpoint spec_labelText (n : node) : jsstring :=
  match n with
  | Text d => d
  | Comment _ => []
  | Elem nm _ ks =>
      if Js.eqb nm Marker.a then [] else concat (map spec_labelText ks)
  end.

Definition stripTrailingDot (s : jsstring) : jsstring :=
  match rev s with
  | c :: r => if N.eqb c 46 then rev r else s
  | [] => s
  end.

(** The sense label as the specification words it: the marker text with any
    trailing period removed, trimmed; absent when the trimmed text is empty. *)
Definition spec_senseLabel (markerText : jsstring) : option jsstring :=
  let t := trim markerText in
  if isEmpty t then None else Some (trim (stripTrailingDot t)).

(** The senses of an expression as the specification words them: the sense
    nodes nested in the expression node, wherever located. *)
Definition spec_expressionSenses (d : dom) (element : path) : list path :=
  find d element (Sel (Cls Marker.Sense)).

End Spec.

(* ------------------------------------------------------------------ *)
(** ** The invariants of the result *)

Definition wellFormedReference (ref : Reference) : Prop :=
  words ref <> [] /\ Forall (fun w => w <> []) (words ref).

Definition hasDefinitionText (dn : DefinitionEntry) : Prop :=
  definition dn <> [].

(** A string with a code unit that [trim] does not strip. *)
Definition hasInk (s : jsstring) : bool :=
  existsb (fun c => negb (isWhiteSpace c)) s.

(** A string that [trim] leaves as it is. *)
Definition trimmed (s : jsstring) : Prop := trim s = s.

(** What every Definition built by the extractor satisfies. *)
Definition cleanDefinition (dn : DefinitionEntry) : Prop :=
  definition dn <> [] /\
  trimmed (definition dn) /\
  Forall trimmed (examples dn) /\
  sense dn <> Some [] /\
  references dn = None.

(** What every Expression built by the extractor satisfies. *)
Definition cleanExpression (x : Expression) : Prop :=
  expression x <> [] /\
  trimmed (expression x) /\
  exprDefinitions x <> [] /\
  Forall cleanDefinition (exprDefinitions x).


Definition wellFormedExpression (x : Expression) : Prop :=
  expression x <> [] /\
  exprDefinitions x <> [] /\
  Forall hasDefinitionText (exprDefinitions x) /\
  startsWith (expression x) Marker.PalabrasRelacionadas = false.

(* ------------------------------------------------------------------ *)
(** ** Reading a sense on a DOM that other senses have changed *)

(** Induction on a node, with the property known for the children. *)
Section NodeInduction.

Variable P : node -> Prop.
Hypothesis onText : forall data, P (Text data).
Hypothesis onComment : forall data, P (Comment data).
Hypothesis onElem : forall name classes children,
    Forall P children -> P (Elem name classes children).

Fixpoint node_induction (n : node) : P n :=
  match n with
  | Text data => onText data
  | Comment data => onComment data
  | Elem name classes children =>
      onElem name classes children
             ((fix all (l : list node) : Forall P l :=
                 match l with
                 | [] => Forall_nil P
                 | k :: l' => Forall_cons k (node_induction k) (all l')
                 end) children)
  end.

End NodeInduction.

(** [x] lies strictly below [p]. *)
Definition below (p x : path) : Prop := exists r, r <> [] /\ x = p ++ r.

(** Two stores that detach the same nodes below [p]. *)
Definition agree (p : path) (dt dt' : detset) : Prop :=
  forall r, r <> [] -> detached dt (p ++ r) = detached dt' (p ++ r).

(** [d'] is [d] with more nodes detached, all of them below [ctx]. *)
Definition grown (ctx : path) (d d' : dom) : Prop :=
  root d' = root d /\
  exists extra, det d' = det d ++ extra /\ Forall (below ctx) extra.

(** What the sense callback pushes for a sense as it reads on [d], given that
    no references are ever found. *)
Definition readSense (d : dom) (element : path) : list DefinitionEntry :=
  if isEmpty (definitionTextOf d element) then []
  else [mkDefinition (orUndefined (senseNumberOf d element))
                     (definitionTextOf d element)
                     (examplesOf d element)
                     None].

(* ------------------------------------------------------------------ *)
(** ** Lists, paths and folds *)

Lemma path_eqb_refl (p : path) : path_eqb p p = true.
Proof.
  induction p as [|i p IH]; simpl; [reflexivity|].
  now rewrite Nat.eqb_refl, IH.
Qed.

Lemma detached_app (a b : detset) (p : path) :
  detached (a ++ b) p = detached a p || detached b p.
Proof. unfold detached. apply existsb_app. Qed.

Lemma detached_In (dt : detset) (p : path) : In p dt -> detached dt p = true.
Proof.
  intro H. unfold detached. apply existsb_exists.
  exists p. split; [assumption | apply path_eqb_refl].
Qed.

Lemma fold_left_inv {A B : Type} (f : A -> B -> A) (I : A -> Prop) :
  (forall acc x, I acc -> I (f acc x)) ->
  forall l init, I init -> I (fold_left f l init).
Proof.
  intros Hstep l. induction l as [|x l IH]; intros init Hinit; simpl.
  - assumption.
  - apply IH, Hstep, Hinit.
Qed.

Lemma isEmpty_true (s : jsstring) : isEmpty s = true <-> s = [].
Proof. destruct s; simpl; split; intro H; congruence. Qed.

Lemma isEmpty_false (s : jsstring) : isEmpty s = false <-> s <> [].
Proof. destruct s; simpl; split; intro H; congruence. Qed.

Lemma startsWith_app (s p q : jsstring) :
  startsWith s (p ++ q) = true -> startsWith s p = true.
Proof.
  revert s. induction p as [|y p IH]; intros s H; simpl in *; [reflexivity|].
  destruct s as [|x s]; [discriminate|].
  apply andb_true_iff in H. destruct H as [Hx Hs].
  rewrite Hx. simpl. now apply IH.
Qed.

(** *** Concatenation over the children of a node *)

Section MapiCat.
Context {A : Type}.

Lemma mapiCat_nil (f : nat -> node -> list A) (l : list node) :
  forall i,
    (forall j k, nth_error l j = Some k -> f (i + j) k = []) ->
    mapiCat f i l = [].
Proof.
  induction l as [|k l IH]; intros i H; simpl; [reflexivity|].
  rewrite IH.
  - rewrite app_nil_r. specialize (H 0 k eq_refl).
    now rewrite Nat.add_0_r in H.
  - intros j k' Hj. specialize (H (S j) k' Hj).
    now rewrite Nat.add_succ_r in H.
Qed.

Lemma mapiCat_ext (f g : nat -> node -> list A) (l : list node) :
  forall i,
    (forall j k, nth_error l j = Some k -> f (i + j) k = g (i + j) k) ->
    mapiCat f i l = mapiCat g i l.
Proof.
  induction l as [|k l IH]; intros i H; simpl; [reflexivity|].
  f_equal.
  - specialize (H 0 k eq_refl). now rewrite Nat.add_0_r in H.
  - apply IH. intros j k' Hj. specialize (H (S j) k' Hj).
    now rewrite Nat.add_succ_r in H.
Qed.

Lemma mapiCat_In (f : nat -> node -> list A) (l : list node) (x : A) :
  forall i j k,
    nth_error l j = Some k -> In x (f (i + j) k) -> In x (mapiCat f i l).
Proof.
  induction l as [|k0 l IH]; intros i j k Hj Hx.
  - destruct j; discriminate.
  - simpl. apply in_or_app. destruct j as [|j]; simpl in Hj.
    + injection Hj as ->. left. now rewrite Nat.add_0_r in Hx.
    + right. apply (IH (S i) j k Hj). now rewrite Nat.add_succ_r in Hx.
Qed.
End MapiCat.

(* ------------------------------------------------------------------ *)
(** ** What [.children().remove()] leaves behind *)

Lemma child_detached_after_remove (dt : detset) (p : path)
      (nm : jsstring) (cs : list jsstring) (ks : list node)
      (j : nat) (nm' : jsstring) (cs' : list jsstring) (ks' : list node) :
  nth_error ks j = Some (Elem nm' cs' ks') ->
  detached (dt ++ childElems dt p (Elem nm cs ks)) (p ++ [j]) = true.
Proof.
  intro Hj. rewrite detached_app.
  destruct (detached dt (p ++ [j])) eqn:Hd; [reflexivity|]. simpl.
  apply detached_In. unfold childElems.
  apply (mapiCat_In _ ks (p ++ [j]) 0 j _ Hj). simpl.
  rewrite Hd. now left.
Qed.

(** No element is left below a block whose children were removed. *)
Lemma descend_after_remove (dt : detset) (p : path) (n : node) :
  descend (dt ++ childElems dt p n) p n = [].
Proof.
  destruct n as [s | s | nm cs ks]; try reflexivity.
  remember (childElems dt p (Elem nm cs ks)) as removed eqn:Hr.
  simpl. apply mapiCat_nil. intros j k Hj. simpl.
  destruct k as [s | s | nm' cs' ks']; try reflexivity.
  subst removed.
  now rewrite (child_detached_after_remove dt p nm cs ks j nm' cs' ks' Hj).
Qed.

(** The text of such a block is the text of its own text nodes. *)
Lemma textOf_after_remove (dt : detset) (p : path)
      (nm : jsstring) (cs : list jsstring) (ks : list node) :
  textOf (dt ++ childElems dt p (Elem nm cs ks)) p (Elem nm cs ks)
  = ownText (Elem nm cs ks).
Proof.
  remember (childElems dt p (Elem nm cs ks)) as removed eqn:Hr.
  simpl. apply mapiCat_ext. intros j k Hj. simpl.
  destruct k as [s | s | nm' cs' ks']; try reflexivity.
  subst removed.
  now rewrite (child_detached_after_remove dt p nm cs ks j nm' cs' ks' Hj).
Qed.

Lemma root_removeChildren (d : dom) (p : path) :
  root (removeChildren d p) = root d.
Proof. unfold removeChildren. now destruct (nodeAt (root d) p). Qed.

Lemma find_after_remove (d : dom) (p : path) (s : selector) :
  find (removeChildren d p) p s = [].
Proof.
  unfold find. rewrite root_removeChildren.
  destruct (nodeAt (root d) p) as [n|] eqn:Hn; [|reflexivity].
  unfold removeChildren. rewrite Hn. simpl det.
  now rewrite descend_after_remove.
Qed.

Lemma textAt_after_remove (d : dom) (p : path)
      (nm : jsstring) (cs : list jsstring) (ks : list node) :
  nodeAt (root d) p = Some (Elem nm cs ks) ->
  textAt (removeChildren d p) p = ownText (Elem nm cs ks).
Proof.
  intro Hn. unfold textAt. rewrite root_removeChildren, Hn.
  unfold removeChildren. rewrite Hn. simpl det.
  apply textOf_after_remove.
Qed.

(** A node found from a context lies strictly below it. *)
Lemma descend_below_context (dt : detset) (n : node) :
  forall p q, In q (descend dt p n) -> exists r, r <> [] /\ q = p ++ r.
Proof.
  induction n as [t | t | nm cs ks IH] using node_induction; intros p q H;
    try destruct H.
  simpl in H.
  assert (Hinv : forall (l : list node) (i : nat),
             In q (mapiCat (fun i k =>
                              match k with
                              | Elem _ _ _ =>
                                  if detached dt (p ++ [i]) then []
                                  else (p ++ [i]) :: descend dt (p ++ [i]) k
                              | _ => []
                              end) i l) ->
             Forall (fun k => forall p q, In q (descend dt p k) ->
                                          exists r, r <> [] /\ q = p ++ r) l ->
             exists r, r <> [] /\ q = p ++ r).
  { induction l as [|k l IHl]; intros i Hin Hall; [destruct Hin|].
    simpl in Hin. apply in_app_or in Hin. inversion Hall as [|? ? Hk Hl]; subst.
    destruct Hin as [Hin | Hin]; [|now apply (IHl (S i))].
    destruct k as [t | t | nm' cs' ks']; try destruct Hin.
    destruct (detached dt (p ++ [i])); [destruct Hin|].
    destruct Hin as [<- | Hin].
    - exists [i]. split; [discriminate | reflexivity].
    - destruct (Hk _ _ Hin) as (r & _ & ->). exists (i :: r).
      split; [discriminate | now rewrite <- app_assoc]. }
  exact (Hinv ks 0 H IH).
Qed.

(** Whatever a selector picks is an element. *)
Lemma matchAt_elem (r : node) (s : simple) (q : path) :
  matchAt r s q = true ->
  exists nm cs ks, nodeAt r q = Some (Elem nm cs ks).
Proof.
  unfold matchAt. destruct (nodeAt r q) as [[t | t | nm cs ks]|]; intro H.
  - destruct s; simpl in H; discriminate.
  - destruct s; simpl in H; discriminate.
  - now exists nm, cs, ks.
  - discriminate.
Qed.

Lemma find_elem (d : dom) (ctx : path) (c : simple) (q : path) :
  In q (find d ctx (Sel c)) ->
  exists nm cs ks, nodeAt (root d) q = Some (Elem nm cs ks).
Proof.
  unfold find. destruct (nodeAt (root d) ctx); [|intros []].
  intro H. apply filter_In in H. destruct H as [_ H].
  simpl in H. now apply matchAt_elem in H.
Qed.

(* ------------------------------------------------------------------ *)
(** ** The extractor on the sample documents *)

(** Scenario A of the specification. *)
Example scenario_A :
  parseDocument Sample.casa (lit "Casa")
  = mkEntry (lit "casa") (Some (lit "substantivo feminino"))
            [mkDefinition (Some (lit "1")) (lit "Edificio para vivir")
                          [lit "A casa e grande"] None]
            [].
Proof. vm_compute. reflexivity. Qed.

(** Scenario B of the specification: the footer block is skipped.  Its
    sub-entry container is the first of the page, so that its sense is read
    as a top-level sense. *)
Example scenario_B :
  expressions (parseDocument (Sample.page [Sample.related]) (lit "casa")) = [] /\
  map definition (definitions (parseDocument (Sample.page [Sample.related]) (lit "casa")))
  = [lit "Lugar"].
Proof. split; vm_compute; reflexivity. Qed.

(** An expression block that carries the sub-entry marker itself: its direct
    sense is visited, and, being the first [.Subentry] of the page, it also
    gives the top-level definition. *)
Example expression_as_its_own_container :
  parseDocument (Sample.page [Sample.selfBoxed]) (lit "casa")
  = mkEntry (lit "casa") None
            [mkDefinition None (lit "Propio do fogar") [] None]
            [mkExpression (lit "de casa")
                          [mkDefinition None (lit "Propio do fogar") [] None]].
Proof. vm_compute. reflexivity. Qed.

(** The fallback of line 223 on such a block: the definition lying directly
    in it is taken, with the example of the container beside it. *)
Example fallback_in_its_own_container :
  expressions (parseDocument (Sample.page [Sample.selfDefined]) (lit "casa"))
  = [mkExpression (lit "na casa")
                  [mkDefinition None (lit "No fogar") [lit "Quedou na casa"] None]].
Proof. vm_compute. reflexivity. Qed.

(** A block labelled SINONIMOS with three links: before line 282 has run the
    block rule would emit two words, after it the links are gone and the
    sense gets no references. *)
Example references_lost :
  let d := mkDom (Sample.page [Sample.synonyms]) [] in
  collectWords d [0; 1] = [lit "edificio"; lit "vivenda"] /\
  collectWords (removeChildren d [0; 1]) [0; 1] = [] /\
  map references (fst (senseStep ([], d) [0])) = [None] /\
  det (snd (senseStep ([], d) [0])) = [[0; 1; 1]; [0; 1; 2]; [0; 1; 3]].
Proof. cbv zeta. repeat split; vm_compute; reflexivity. Qed.

(* ------------------------------------------------------------------ *)
(** ** Reference classification *)

Lemma collectWords_nonempty (d : dom) (r : path) :
  Forall (fun w => w <> []) (collectWords d r).
Proof.
  apply Forall_forall. intros w Hw. unfold collectWords in Hw.
  apply filter_In in Hw. destruct Hw as [_ Hw].
  apply isEmpty_false. now destruct (isEmpty w).
Qed.

Lemma emitReference_words (d : dom) (r : path) (refText : jsstring) (ref : Reference) :
  emitReference d r refText = Some ref ->
  words ref <> [] /\ Forall (fun w => w <> []) (words ref).
Proof.
  unfold emitReference. destruct (blockType d r refText) as [t|]; [|discriminate].
  destruct (collectWords d r) as [|w ws] eqn:Hc; [discriminate|].
  intro H. injection H as <-. simpl. split; [discriminate|].
  rewrite <- Hc. apply collectWords_nonempty.
Qed.

Lemma referencesStep_wellFormed (acc : list Reference * dom) (r : path) :
  Forall wellFormedReference (fst acc) ->
  Forall wellFormedReference (fst (referencesStep acc r)).
Proof.
  destruct acc as [l d]. simpl. intro H.
  destruct (emitReference (removeChildren d r) r
              (trim (textAt (removeChildren d r) r))) as [ref|] eqn:He; simpl.
  - apply Forall_app. split; [assumption|].
    constructor; [|constructor]. now apply emitReference_words in He.
  - assumption.
Qed.

Lemma extractReferences_wellFormed (d : dom) (ctx : path) :
  Forall wellFormedReference (fst (extractReferences d ctx)).
Proof.
  unfold extractReferences.
  apply (fold_left_inv referencesStep
           (fun acc => Forall wellFormedReference (fst acc))).
  - apply referencesStep_wellFormed.
  - constructor.
Qed.

(** Once line 282 has removed the children of a block, the block holds no
    link any more, so no word is collected from it. *)
Lemma collectWords_after_remove (d : dom) (r : path) :
  collectWords (removeChildren d r) r = [].
Proof. unfold collectWords. now rewrite find_after_remove. Qed.

Lemma typeSpanText_after_remove (d : dom) (r : path) :
  typeSpanText (removeChildren d r) r = [].
Proof. unfold typeSpanText. now rewrite find_after_remove. Qed.

Lemma referencesStep_fst (l : list Reference) (d : dom) (r : path) :
  fst (referencesStep (l, d) r) = l.
Proof.
  simpl. unfold emitReference. rewrite collectWords_after_remove.
  now destruct (blockType (removeChildren d r) r
                  (trim (textAt (removeChildren d r) r))).
Qed.

(** As written, [extractReferences] returns no reference at all, whatever
    the markup. *)
Lemma extractReferences_nil (d : dom) (ctx : path) :
  fst (extractReferences d ctx) = [].
Proof.
  unfold extractReferences.
  apply (fold_left_inv referencesStep (fun acc => fst acc = [])).
  - intros [l d'] r H. simpl in H. subst l. apply referencesStep_fst.
  - reflexivity.
Qed.

Lemma classifyLabel_None (refText : jsstring) :
  classifyLabel refText = None ->
  startsWith refText Marker.SINONIMO = false /\
  startsWith refText Marker.VEXASE = false /\
  startsWith refText Marker.CONFRONTESE = false.
Proof.
  unfold classifyLabel.
  destruct (startsWith refText Marker.SINONIMO); [discriminate|].
  destruct (startsWith refText Marker.SINONIMOS); [discriminate|]. cbn [orb].
  destruct (startsWith refText Marker.VEXASE); [discriminate|].
  destruct (startsWith refText Marker.CONFRONTESE); [discriminate|].
  auto.
Qed.

(** C2, as the code has it.  For every references block, the label is the
    trimmed text of the block's own text nodes: every child element, link or
    not, is left out of it.  A label that starts with SINONIMO (or SINONIMOS)
    makes the block a SYNONYM block, otherwise one that starts with VEXASE a
    SEE block, otherwise one that starts with CONFRONTESE a COMPARE block,
    whatever else the block holds; and a block that ends without a type
    gives no reference, whatever links it holds. *)
Theorem C2_reference_classification (d : dom) (contextElement r : path) :
  In r (find d contextElement (Sel (Cls Marker.References))) ->
  let refText := trim (textAt (removeChildren d r) r) in
  (exists n, nodeAt (root d) r = Some n /\ refText = trim (ownText n)) /\
  (forall d',
      startsWith refText Marker.SINONIMO = true
      \/ startsWith refText Marker.SINONIMOS = true ->
      blockType d' r refText = Some SYNONYM) /\
  (forall d',
      startsWith refText Marker.SINONIMO = false ->
      startsWith refText Marker.VEXASE = true ->
      blockType d' r refText = Some SEE) /\
  (forall d',
      startsWith refText Marker.SINONIMO = false ->
      startsWith refText Marker.VEXASE = false ->
      startsWith refText Marker.CONFRONTESE = true ->
      blockType d' r refText = Some COMPARE) /\
  (forall d',
      blockType d' r refText = None ->
      emitReference d' r refText = None).
Proof.
  intros Hin refText.
  destruct (find_elem d contextElement _ r Hin) as (nm & cs & ks & Hn).
  assert (Hs : forall t, startsWith t Marker.SINONIMOS = true ->
                         startsWith t Marker.SINONIMO = true).
  { intros t. change Marker.SINONIMOS with (Marker.SINONIMO ++ lit "S").
    apply startsWith_app. }
  split; [|split; [|split; [|split]]].
  - exists (Elem nm cs ks). split; [exact Hn|].
    unfold refText. now rewrite (textAt_after_remove d r nm cs ks Hn).
  - intros d' [H|H]; [|apply Hs in H];
      unfold blockType, classifyLabel; now rewrite H.
  - intros d' H1 H2. unfold blockType, classifyLabel. rewrite H1, H2.
    destruct (startsWith refText Marker.SINONIMOS) eqn:H3; [|reflexivity].
    apply Hs in H3. congruence.
  - intros d' H1 H2 H3. unfold blockType, classifyLabel. rewrite H1, H2, H3.
    destruct (startsWith refText Marker.SINONIMOS) eqn:H4; [|reflexivity].
    apply Hs in H4. congruence.
  - intros d' H. unfold emitReference. now rewrite H.
Qed.

(** C2, witnessed on the blocks labelled SINONIMOS, VEXASE, CONFRONTESE and
    "Ver" of a sense, each read with its link still in place; there the
    block labelled SINONIMOS gives a reference and the one labelled "Ver"
    gives none. *)
Lemma C2_reference_classification_witness :
  trim (textAt (removeChildren (mkDom (Sample.labelled Marker.SINONIMOS) []) [0; 1])
               [0; 1]) = Marker.SINONIMOS /\
  blockType (mkDom (Sample.labelled Marker.SINONIMOS) []) [0; 1] Marker.SINONIMOS
  = Some SYNONYM /\
  blockType (mkDom (Sample.labelled Marker.VEXASE) []) [0; 1] Marker.VEXASE
  = Some SEE /\
  blockType (mkDom (Sample.labelled Marker.CONFRONTESE) []) [0; 1] Marker.CONFRONTESE
  = Some COMPARE /\
  emitReference (mkDom (Sample.labelled (lit "Ver")) []) [0; 1] (lit "Ver") = None /\
  emitReference (mkDom (Sample.labelled Marker.SINONIMOS) []) [0; 1] Marker.SINONIMOS
  = Some (mkReference SYNONYM [lit "can"]).
Proof.
  assert (Hin : forall label,
             In [0; 1] (find (mkDom (Sample.labelled label) []) [0]
                             (Sel (Cls Marker.References)))).
  { intro label. vm_compute. now left. }
  split; [|split; [|split; [|split; [|split]]]].
  - pose proof (C2_reference_classification _ _ _ (Hin Marker.SINONIMOS))
      as ((n & Hn & Htext) & _).
    vm_compute in Hn. injection Hn as <-. exact Htext.
  - pose proof (C2_reference_classification _ _ _ (Hin Marker.SINONIMOS))
      as (_ & H & _).
    apply (H (mkDom (Sample.labelled Marker.SINONIMOS) [])). left. reflexivity.
  - pose proof (C2_reference_classification _ _ _ (Hin Marker.VEXASE))
      as (_ & _ & H & _).
    apply (H (mkDom (Sample.labelled Marker.VEXASE) [])); reflexivity.
  - pose proof (C2_reference_classification _ _ _ (Hin Marker.CONFRONTESE))
      as (_ & _ & _ & H & _).
    apply (H (mkDom (Sample.labelled Marker.CONFRONTESE) [])); reflexivity.
  - pose proof (C2_reference_classification _ _ _ (Hin (lit "Ver")))
      as (_ & _ & _ & _ & H).
    apply (H (mkDom (Sample.labelled (lit "Ver")) [])). reflexivity.
  - reflexivity.
Defined.

(** C2 as worded fails: in a block whose label sits in a bold element, the
    text outside the links reads VEXASE, which the prefix rule would make a
    SEE reference, while the code reads an empty label and drops the block. *)
Lemma C2_counterexample :
  let d := mkDom (Sample.page [Sample.boldLabel]) [] in
  let r := [0; 0] in
  nodeAt (root d) r
  = Some (Sample.el "span" ["References"%string]
            [Sample.el "b" [] [Text Marker.VEXASE];
             Sample.el "a" ["Reference"%string] [Sample.txt "can"]]) /\
  trim (Spec.spec_labelText
          (Sample.el "span" ["References"%string]
             [Sample.el "b" [] [Text Marker.VEXASE];
              Sample.el "a" ["Reference"%string] [Sample.txt "can"]]))
  = Marker.VEXASE /\
  trim (textAt (removeChildren d r) r) = [] /\
  trim (textAt (removeChildren d r) r)
  <> trim (Spec.spec_labelText
             (Sample.el "span" ["References"%string]
                [Sample.el "b" [] [Text Marker.VEXASE];
                 Sample.el "a" ["Reference"%string] [Sample.txt "can"]])) /\
  fst (referencesStep ([], d) r) = [].
Proof.
  cbv zeta. repeat split; try reflexivity.
  vm_compute. discriminate.
Qed.

(* ------------------------------------------------------------------ *)
(** ** The sense extraction rule *)

Lemma senseStep_skip (defs : list DefinitionEntry) (d : dom) (element : path) :
  isEmpty (definitionTextOf d element) = true ->
  senseStep (defs, d) element = (defs, d).
Proof. intro H. unfold senseStep, senseStepWith. now rewrite H. Qed.

Lemma senseStep_push (defs : list DefinitionEntry) (d : dom) (element : path) :
  isEmpty (definitionTextOf d element) = false ->
  senseStep (defs, d) element
  = (defs ++ [mkDefinition (orUndefined (senseNumberOf d element))
                           (definitionTextOf d element)
                           (examplesOf d element)
                           (hd_error (fst (extractReferences d element)))],
     snd (extractReferences d element)).
Proof.
  intro H. unfold senseStep, senseStepWith. rewrite H.
  now destruct (extractReferences d element).
Qed.

Lemma replace_dot_absent (t : jsstring) :
  ~ In 46%N t -> replace t Marker.dot [] = t.
Proof.
  induction t as [|c t IH]; intro H; [reflexivity|].
  simpl in H. cbn.
  destruct (N.eqb_spec c 46) as [->|Hc]; [exfalso; now apply H; left|].
  cbn. f_equal. apply IH. intro Hin. apply H. now right.
Qed.

Lemma replace_dot_first (a b : jsstring) :
  ~ In 46%N a -> replace (a ++ 46%N :: b) Marker.dot [] = a ++ b.
Proof.
  induction a as [|c a IH]; intro H; [reflexivity|].
  simpl in H. cbn.
  destruct (N.eqb_spec c 46) as [->|Hc]; [exfalso; now apply H; left|].
  cbn. f_equal. apply IH. intro Hin. apply H. now right.
Qed.

(** C3, as the code has it.  For a sense that yields a Definition, the sense
    label is the trimmed text of the sense-number markers of the sense with
    its first period removed, wherever that period stands, and nothing else
    changed; the label is absent when that leaves nothing, as when the marker
    is missing or its trimmed text is empty. *)
Theorem C3_sense_label (acc : list DefinitionEntry * dom) (element : path) :
  isEmpty (definitionTextOf (snd acc) element) = false ->
  let markerText :=
    trim (textSel (snd acc)
                  (find (snd acc) element (Sel (Cls Marker.Sense__SenseNumber)))) in
  exists dn,
    fst (senseStep acc element) = fst acc ++ [dn] /\
    (~ In 46%N markerText -> sense dn = orUndefined markerText) /\
    (forall a b, markerText = a ++ 46%N :: b -> ~ In 46%N a ->
                 sense dn = orUndefined (a ++ b)) /\
    (find (snd acc) element (Sel (Cls Marker.Sense__SenseNumber)) = [] ->
     sense dn = None) /\
    (markerText = [] -> sense dn = None).
Proof.
  destruct acc as [defs d]. intro H. cbv zeta. cbn [fst snd] in *.
  rewrite (senseStep_push defs d element H). cbn [fst snd].
  eexists. split; [reflexivity|]. cbn [sense]. unfold senseNumberOf.
  set (markerText :=
         trim (textSel d (find d element (Sel (Cls Marker.Sense__SenseNumber))))).
  split; [|split; [|split]].
  - intro Hno. now rewrite replace_dot_absent.
  - intros a b Hab Hno. rewrite Hab. now rewrite replace_dot_first.
  - intro Hf. unfold markerText. rewrite Hf. reflexivity.
  - intro Hm. rewrite Hm. reflexivity.
Qed.

(** C3, witnessed on the sense numbered "1." of the sample entry. *)
Lemma C3_sense_label_witness :
  exists dn,
    fst (senseStep ([], mkDom Sample.casa []) [0; 0; 2]) = [dn] /\
    sense dn = Some (lit "1").
Proof.
  destruct (C3_sense_label ([], mkDom Sample.casa []) [0; 0; 2] eq_refl)
    as (dn & Hdn & _ & Hdot & _).
  exists dn. split; [exact Hdn|].
  apply (Hdot (lit "1") []); [reflexivity|].
  intros [H|[]]. discriminate H.
Defined.

(** C3 as worded fails: the marker text "1.2." keeps its interior period and
    loses its trailing one in the specification's reading, and the code does
    the opposite. *)
Lemma C3_counterexample :
  let d := mkDom (Sample.page [Sample.dotted]) [] in
  let element := [0; 0] in
  textSel d (find d element (Sel (Cls Marker.Sense__SenseNumber))) = lit " 1.2. " /\
  Spec.spec_senseLabel (lit " 1.2. ") = Some (lit "1.2") /\
  map sense (fst (senseStep ([], d) element)) = [Some (lit "12.")] /\
  map sense (fst (senseStep ([], d) element))
  <> [Spec.spec_senseLabel (lit " 1.2. ")].
Proof.
  cbv zeta. repeat split; try reflexivity.
  vm_compute. discriminate.
Qed.



(** C10.  Every reference that the block rule emits, on any state of the
    DOM, has at least one word and only non-empty words; so has every
    reference [extractReferences] returns; and a block whose links all have
    an empty trimmed text emits nothing, whatever its label. *)
Theorem C10_reference_words_nonempty :
  (forall d r refText ref,
      emitReference d r refText = Some ref ->
      words ref <> [] /\ Forall (fun w => w <> []) (words ref)) /\
  (forall d ctx,
      Forall (fun ref => words ref <> [] /\ Forall (fun w => w <> []) (words ref))
             (fst (extractReferences d ctx))) /\
  (forall d r refText,
      Forall (fun refEl => trim (textAt d refEl) = [])
             (find d r (Sel (TagCls Marker.a Marker.ReferenceLink))) ->
      emitReference d r refText = None).
Proof.
  split; [|split].
  - apply emitReference_words.
  - apply extractReferences_wellFormed.
  - intros d r refText H. unfold emitReference.
    destruct (blockType d r refText); [|reflexivity].
    assert (Hc : collectWords d r = []).
    { unfold collectWords.
      induction (find d r (Sel (TagCls Marker.a Marker.ReferenceLink)))
        as [|x l IH]; [reflexivity|].
      inversion H as [|? ? Hx Hl]; subst. simpl. rewrite Hx. simpl.
      now apply IH. }
    now rewrite Hc.
Qed.

(** C10, witnessed on a block with the links "edificio", "  " and
    " vivenda ", read before anything was removed, and on a block whose only
    link is blank. *)
Lemma C10_reference_words_nonempty_witness :
  (exists ref,
      emitReference (mkDom (Sample.page [Sample.synonyms]) []) [0; 1]
                    Marker.SINONIMOS = Some ref /\
      words ref = [lit "edificio"; lit "vivenda"] /\
      Forall (fun w => w <> []) (words ref)) /\
  emitReference
    (mkDom (Sample.page
              [Sample.el "span" ["References"%string]
                 [Sample.el "a" ["Reference"%string] [Sample.txt "  "]]]) [])
    [0] Marker.SINONIMOS = None.
Proof.
  destruct C10_reference_words_nonempty as (Hemit & _ & Hblank).
  split.
  - exists (mkReference SYNONYM [lit "edificio"; lit "vivenda"]).
    split; [vm_compute; reflexivity|]. split; [reflexivity|].
    apply (Hemit (mkDom (Sample.page [Sample.synonyms]) []) [0; 1]
                 Marker.SINONIMOS).
    vm_compute. reflexivity.
  - apply Hblank. repeat constructor.
Defined.

(* ------------------------------------------------------------------ *)
(** ** Definitions and expressions of the entry *)

Lemma senseStep_defs (acc : list DefinitionEntry * dom) (element : path) :
  Forall hasDefinitionText (fst acc) ->
  Forall hasDefinitionText (fst (senseStep acc element)).
Proof.
  destruct acc as [defs d]. cbn [fst]. intro H.
  destruct (isEmpty (definitionTextOf d element)) eqn:He.
  - now rewrite senseStep_skip.
  - rewrite senseStep_push by assumption. cbn [fst].
    apply Forall_app. split; [assumption|].
    constructor; [|constructor]. now apply isEmpty_false.
Qed.

Lemma fallbackStep_defs (acc : list DefinitionEntry * dom) (defEl : path) :
  Forall hasDefinitionText (fst acc) ->
  Forall hasDefinitionText (fst (fallbackStep acc defEl)).
Proof.
  destruct acc as [defs d]. cbn [fst]. intro H. unfold fallbackStep.
  destruct (isEmpty (definitionTextOf d defEl)) eqn:He; [assumption|].
  destruct (match parentOf d defEl with
            | Some parent => extractReferences d parent
            | None => ([], d)
            end) as [refs d'].
  cbn [fst]. apply Forall_app. split; [assumption|].
  constructor; [|constructor]. now apply isEmpty_false.
Qed.

Lemma expressionDefinitionsOf_defs (d : dom) (element : path) :
  Forall hasDefinitionText (fst (expressionDefinitionsOf d element)).
Proof.
  unfold expressionDefinitionsOf.
  pose proof (fold_left_inv senseStep
                (fun acc => Forall hasDefinitionText (fst acc))
                senseStep_defs (expressionSenses d element) ([], d)
                (Forall_nil _)) as Hs.
  destruct (fold_left senseStep (expressionSenses d element) ([], d))
    as [defs d1].
  destruct defs as [|dn defs]; [|exact Hs].
  apply (fold_left_inv fallbackStep
           (fun acc => Forall hasDefinitionText (fst acc))).
  - apply fallbackStep_defs.
  - constructor.
Qed.


Lemma expressionStep_wellFormed (acc : list Expression * dom) (element : path) :
  Forall wellFormedExpression (fst acc) ->
  Forall wellFormedExpression (fst (expressionStep acc element)).
Proof.
  destruct acc as [exprs d]. cbn [fst]. intro H. unfold expressionStep.
  destruct (startsWith (expressionTextOf d element) Marker.PalabrasRelacionadas)
    eqn:Hp; [assumption|].
  destruct (isEmpty (expressionTextOf d element)) eqn:He; [assumption|].
  pose proof (expressionDefinitionsOf_defs d element) as Hd.
  destruct (expressionDefinitionsOf d element) as [defs d'].
  cbn [fst] in Hd. cbn [negb andb].
  destruct defs as [|dn defs]; cbn [List.length Nat.eqb negb fst]; [assumption|].
  apply Forall_app. split; [assumption|].
  constructor; [|constructor].
  unfold wellFormedExpression. cbn [expression exprDefinitions].
  split; [now apply isEmpty_false|].
  split; [discriminate|]. split; assumption.
Qed.


Lemma parseDocument_expressions (doc : node) (wordTitle : jsstring) :
  Forall wellFormedExpression (expressions (parseDocument doc wordTitle)).
Proof.
  unfold parseDocument.
  match goal with
  | |- context [fold_left senseStep ?l ?i] =>
      destruct (fold_left senseStep l i) as [defs d1]
  end.
  match goal with
  | |- context [fold_left expressionStep ?l ?i] =>
      pose proof (fold_left_inv expressionStep
                    (fun acc => Forall wellFormedExpression (fst acc))
                    expressionStep_wellFormed l i (Forall_nil _)) as He;
      destruct (fold_left expressionStep l i) as [exprs d2]
  end.
  exact He.
Qed.



(** C5.  Every Expression of the returned entry has a non-empty text and at
    least one definition. *)
Theorem C5_expression_invariant (doc : node) (wordTitle : jsstring) :
  Forall (fun x => expression x <> [] /\ exprDefinitions x <> [])
         (expressions (parseDocument doc wordTitle)).
Proof.
  eapply Forall_impl; [|apply parseDocument_expressions].
  intros x (H1 & H2 & _). now split.
Qed.



(* ------------------------------------------------------------------ *)
(** ** The senses of an expression *)

Lemma between_spec (ctx q a : path) :
  In a (between ctx q) <->
  exists k, length ctx <= k /\ k < length q /\ a = firstn k q.
Proof.
  unfold between. rewrite in_map_iff. split.
  - intros (k & Hk & Hin). apply in_seq in Hin. exists k. split; [lia|].
    split; [lia | now symmetry].
  - intros (k & H1 & H2 & ->). exists k. split; [reflexivity|].
    apply in_seq. lia.
Qed.

Lemma expressionSenses_spec (d : dom) (element q : path) :
  In q (expressionSenses d element) <->
  In q (find d element (Sel (Cls Marker.Sense))) /\
  exists a, In a (between element q) /\
            matchAt (root d) (Cls Marker.Subentry) a = true.
Proof.
  unfold expressionSenses, find.
  destruct (nodeAt (root d) element) as [n|].
  - rewrite !filter_In. cbn [matches]. rewrite andb_true_iff, existsb_exists.
    tauto.
  - simpl. tauto.
Qed.

(** The parent of a node found in a context is one of its ancestors from
    the context down. *)
Lemma parent_between (dt : detset) (ctx q : path) (n : node) :
  In q (descend dt ctx n) -> In (removelast q) (between ctx q).
Proof.
  intro H. apply descend_below_context in H. destruct H as (r & Hr & ->).
  apply between_spec. exists (pred (length (ctx ++ r))).
  assert (Hlen : length (ctx ++ r) = length ctx + length r) by apply length_app.
  destruct r as [|i r]; [congruence|]. simpl in Hlen.
  split; [lia|]. split; [lia|]. apply removelast_firstn_len.
Qed.

(** C8, as the code has it.  For an expression block that is not filtered
    out, the senses visited are the sense nodes inside the expression node
    that have a sub-entry container among their ancestors, the expression
    node itself or a node inside it; a sense node without one is visited
    neither as a sense nor by the fallback; each visited sense with a
    non-empty definition text yields one Definition by the sense extraction
    rule, a visited sense without it yields none; and when these Definitions
    are at least one they are the definitions of the expression. *)
Theorem C8_expression_senses (d : dom) (element : path) :
  (forall q,
      In q (expressionSenses d element) <->
      In q (find d element (Sel (Cls Marker.Sense))) /\
      exists k, length element <= k /\ k < length q /\
                matchAt (root d) (Cls Marker.Subentry) (firstn k q) = true) /\
  (forall q,
      (forall k, length element <= k -> k < length q ->
                 matchAt (root d) (Cls Marker.Subentry) (firstn k q) = false) ->
      ~ In q (expressionSenses d element) /\
      ~ In q (find d element
                   (SelChild (Cls Marker.Subentry) (Cls Marker.DefinitionBlock)))) /\
  (forall defs d0 q,
      isEmpty (definitionTextOf d0 q) = false ->
      senseStep (defs, d0) q
      = (defs ++ [mkDefinition (orUndefined (senseNumberOf d0 q))
                               (definitionTextOf d0 q)
                               (examplesOf d0 q)
                               (hd_error (fst (extractReferences d0 q)))],
         snd (extractReferences d0 q))) /\
  (forall defs d0 q,
      isEmpty (definitionTextOf d0 q) = true ->
      senseStep (defs, d0) q = (defs, d0)) /\
  (forall dn defs d',
      fold_left senseStep (expressionSenses d element) ([], d) = (dn :: defs, d') ->
      expressionDefinitionsOf d element = (dn :: defs, d')).
Proof.
  split; [|split; [|split; [|split]]].
  - intro q. rewrite expressionSenses_spec. split.
    + intros (Hq & a & Ha & Hm). split; [exact Hq|].
      apply between_spec in Ha. destruct Ha as (k & H1 & H2 & ->).
      now exists k.
    + intros (Hq & k & H1 & H2 & Hm). split; [exact Hq|].
      exists (firstn k q). split; [|exact Hm].
      apply between_spec. now exists k.
  - intros q Hno. split.
    + intro Hin. apply expressionSenses_spec in Hin.
      destruct Hin as (_ & a & Ha & Hm).
      apply between_spec in Ha. destruct Ha as (k & H1 & H2 & ->).
      rewrite (Hno k H1 H2) in Hm. discriminate.
    + intro Hin. unfold find in Hin.
      destruct (nodeAt (root d) element) as [n|]; [|destruct Hin].
      apply filter_In in Hin. destruct Hin as [Hdesc Hm].
      cbn [matches] in Hm. apply andb_true_iff in Hm. destruct Hm as [_ Hpar].
      apply parent_between in Hdesc. apply between_spec in Hdesc.
      destruct Hdesc as (k & H1 & H2 & Hk). rewrite Hk in Hpar.
      rewrite (Hno k H1 H2) in Hpar. discriminate.
  - intros defs d0 q. apply senseStep_push.
  - intros defs d0 q. apply senseStep_skip.
  - intros dn defs d' H. unfold expressionDefinitionsOf. now rewrite H.
Qed.

(** C8, witnessed on an expression whose sense sits in a sub-entry
    container, on one that is itself that container, and on one whose sense
    has none. *)
Lemma C8_expression_senses_witness :
  In [0; 1; 0] (expressionSenses (mkDom (Sample.page [Sample.boxedSense]) []) [0]) /\
  map definition
      (fst (expressionDefinitionsOf (mkDom (Sample.page [Sample.boxedSense]) []) [0]))
  = [lit "Propio do fogar"] /\
  In [0; 1] (expressionSenses (mkDom (Sample.page [Sample.selfBoxed]) []) [0]) /\
  ~ In [0; 1] (expressionSenses (mkDom (Sample.page [Sample.bareSense]) []) [0]) /\
  map definition
      (fst (senseStep ([], mkDom (Sample.page [Sample.bareSense]) []) [0; 1]))
  = [lit "Propio do fogar"].
Proof.
  pose proof (C8_expression_senses (mkDom (Sample.page [Sample.boxedSense]) []) [0])
    as (Hin & _ & _ & _ & Hdefs).
  pose proof (C8_expression_senses (mkDom (Sample.page [Sample.selfBoxed]) []) [0])
    as (Hself & _).
  pose proof (C8_expression_senses (mkDom (Sample.page [Sample.bareSense]) []) [0])
    as (_ & Hout & Hpush & _).
  split; [|split; [|split; [|split]]].
  - apply Hin. split; [vm_compute; now left|].
    exists 2. split; [simpl; lia|]. split; [simpl; lia | reflexivity].
  - erewrite Hdefs; [|vm_compute; reflexivity]. reflexivity.
  - apply Hself. split; [vm_compute; now left|].
    exists 1. split; [simpl; lia|]. split; [simpl; lia | reflexivity].
  - apply Hout. intros k H1 H2. simpl in H1, H2.
    assert (k = 1) as -> by lia. reflexivity.
  - rewrite Hpush; reflexivity.
Defined.

(** C8 as worded fails: a sense lying directly in an expression block, with
    no sub-entry container around it, is a sense node nested in the block
    and has a definition text, yet no Definition is extracted from it and the
    expression is dropped. *)
Lemma C8_counterexample :
  let doc := Sample.page [Sample.bareSense] in
  let d := mkDom doc [] in
  startsWith (expressionTextOf d [0]) Marker.PalabrasRelacionadas = false /\
  expressionTextOf d [0] = lit "de casa" /\
  Spec.spec_expressionSenses d [0] = [[0; 1]] /\
  definitionTextOf d [0; 1] = lit "Propio do fogar" /\
  expressionSenses d [0] = [] /\
  fst (expressionDefinitionsOf d [0]) = [] /\
  fst (expressionDefinitionsOf d [0])
  <> fst (fold_left senseStep (Spec.spec_expressionSenses d [0]) ([], d)) /\
  expressions (parseDocument doc (lit "casa")) = [].
Proof.
  cbv zeta. repeat split; try reflexivity.
  vm_compute. discriminate.
Qed.

(* ------------------------------------------------------------------ *)
(** ** The entry in the worst case, and the locator *)

Section ExtractorFacts.

Variable load : jsstring -> node.
Variable loadOther : json -> outcome node.

(** C1.  On a fragment string and a title string [parseHtmlContent]
    returns an entry and does not throw; when the fragment has no primary
    entry block and no expression block, the entry is the trimmed title
    with no part of speech, no definitions and no expressions. *)
Theorem C1_extract_total_worst_case (htmlContent wordTitle : jsstring) :
  parseHtmlContentAny load loadOther (JStr htmlContent) (JStr wordTitle)
  = Ret (parseHtmlContent load htmlContent wordTitle) /\
  (find (mkDom (load htmlContent) []) [] (Sel (Cls Marker.Subentry)) = [] ->
   find (mkDom (load htmlContent) []) [] (Sel (Cls Marker.Fraseoloxia)) = [] ->
   parseHtmlContent load htmlContent wordTitle
   = mkEntry (trim wordTitle) None [] []).
Proof.
  split; [reflexivity|].
  intros Hmain Hexpr. unfold parseHtmlContent, parseDocument.
  rewrite Hmain. cbn [first findSel map concat textSel fold_left].
  rewrite Hexpr. reflexivity.
Qed.

(** C7.  [parseResponse] returns null, and does not throw, when the
    payload is not an object, when it has no [items] field, when [items]
    is an empty list, and when the first item has no [htmlContent]
    field. *)
Theorem C7_locate_not_found (data : json) (word : jsstring) :
  (forall fields, data <> JObj fields)
  \/ getField data (lit "items") = JUndefined
  \/ getField data (lit "items") = JArr []
  \/ (exists item rest,
         getField data (lit "items") = JArr (item :: rest) /\
         getOptional item (lit "htmlContent") = JUndefined) ->
  parseResponse load loadOther data word = Ret None.
Proof.
  intros [Hno | [Hno | [Hno | (item & rest & Hit & Hno)]]];
    unfold parseResponse.
  - destruct data as [| | b | x | s | l | fields];
      try reflexivity.
    + now destruct b.
    + cbn [truthy typeofObject]. now destruct (negb (is_zero x || is_nan x)).
    + cbn [truthy typeofObject]. now destruct (negb (isEmpty s)).
    + now destruct (Hno fields).
  - rewrite Hno. cbn [truthy negb orb].
    now destruct (negb (truthy data) || negb (typeofObject data)).
  - rewrite Hno.
    now destruct (negb (truthy data) || negb (typeofObject data)).
  - rewrite Hit. cbn [truthy isArray elements List.length Nat.eqb negb orb nth].
    rewrite Hno. cbn [truthy negb].
    now destruct (negb (truthy data) || negb (typeofObject data)).
Qed.

End ExtractorFacts.

(** C1, witnessed on a page without markers, parsed by a loader that maps
    every string to it. *)
Lemma C1_extract_total_worst_case_witness :
  parseHtmlContent (fun _ => Sample.plain) (lit "<p>nada</p>") (lit " casa ")
  = mkEntry (lit "casa") None [] [].
Proof.
  apply (C1_extract_total_worst_case (fun _ => Sample.plain) (fun _ => Throw)
           (lit "<p>nada</p>") (lit " casa ")); reflexivity.
Defined.

(** C7, witnessed on a string, on an object without items, on an empty item
    list and on a first item that has only a title. *)
Lemma C7_locate_not_found_witness :
  parseResponse (fun _ => Sample.plain) (fun _ => Throw)
                (JStr (lit "oops")) (lit "casa") = Ret None /\
  parseResponse (fun _ => Sample.plain) (fun _ => Throw)
                (JObj [(lit "total", JNull)]) (lit "casa") = Ret None /\
  parseResponse (fun _ => Sample.plain) (fun _ => Throw)
                (JObj [(lit "items", JArr [])]) (lit "casa") = Ret None /\
  parseResponse (fun _ => Sample.plain) (fun _ => Throw)
                (JObj [(lit "items", JArr [JObj [(lit "title", JStr (lit "casa"))]])])
                (lit "casa") = Ret None.
Proof.
  split; [|split; [|split]]; apply C7_locate_not_found.
  - left. intros fields H. discriminate H.
  - right. left. reflexivity.
  - right. right. left. reflexivity.
  - right. right. right. eexists. eexists. split; reflexivity.
Defined.

(* ------------------------------------------------------------------ *)
(** ** [trim], [includes] and [join] *)

Lemma hasInk_app (a b : jsstring) : hasInk (a ++ b) = hasInk a || hasInk b.
Proof. apply existsb_app. Qed.

Lemma hasInk_rev (s : jsstring) : hasInk (rev s) = hasInk s.
Proof.
  induction s as [|c s IH]; [reflexivity|].
  simpl rev. rewrite hasInk_app, IH. simpl. rewrite orb_false_r. apply orb_comm.
Qed.

Lemma trimStart_app_ink (x y : jsstring) :
  hasInk x = true -> trimStart (x ++ y) = trimStart x ++ y.
Proof.
  induction x as [|c x IH]; intro H; [discriminate|].
  simpl in *. destruct (isWhiteSpace c); simpl in H; [now apply IH | reflexivity].
Qed.

Lemma trimStart_app_blank (x y : jsstring) :
  hasInk x = false -> trimStart (x ++ y) = trimStart y.
Proof.
  induction x as [|c x IH]; intro H; [reflexivity|].
  simpl in *. destruct (isWhiteSpace c); simpl in H; [now apply IH | discriminate].
Qed.

Lemma trimStart_head (s : jsstring) :
  trimStart s = [] \/ exists c r, trimStart s = c :: r /\ isWhiteSpace c = false.
Proof.
  induction s as [|c s IH]; [now left|].
  simpl. destruct (isWhiteSpace c) eqn:Hc; [exact IH|].
  right. now exists c, s.
Qed.

Lemma trimEnd_app_ink (a b : jsstring) :
  hasInk b = true -> trimEnd (a ++ b) = a ++ trimEnd b.
Proof.
  intro H. unfold trimEnd. rewrite rev_app_distr.
  rewrite trimStart_app_ink by now rewrite hasInk_rev.
  now rewrite rev_app_distr, rev_involutive.
Qed.

Lemma trimEnd_app_blank (a b : jsstring) :
  hasInk b = false -> trimEnd (a ++ b) = trimEnd a.
Proof.
  intro H. unfold trimEnd. rewrite rev_app_distr.
  now rewrite trimStart_app_blank by now rewrite hasInk_rev.
Qed.

Lemma trimEnd_last (a : jsstring) (c : N) :
  isWhiteSpace c = false -> trimEnd (a ++ [c]) = a ++ [c].
Proof.
  intro H. unfold trimEnd. rewrite rev_app_distr. simpl. rewrite H.
  simpl. now rewrite rev_involutive.
Qed.

Lemma trimEnd_tail (s : jsstring) :
  trimEnd s = [] \/ exists a c, trimEnd s = a ++ [c] /\ isWhiteSpace c = false.
Proof.
  unfold trimEnd. destruct (trimStart_head (rev s)) as [H | (c & r & H & Hc)].
  - left. now rewrite H.
  - right. exists (rev r), c. rewrite H. now split.
Qed.

(** The text up to a code unit that is not blank survives [trimEnd]. *)
Lemma trimEnd_keeps (a b : jsstring) (c : N) :
  isWhiteSpace c = false -> exists r, trimEnd (a ++ c :: b) = a ++ c :: r.
Proof.
  intro H.
  assert (Hink : hasInk (c :: b) = true) by (simpl; now rewrite H).
  rewrite (trimEnd_app_ink a (c :: b) Hink).
  destruct (hasInk b) eqn:Hb.
  - change (c :: b) with ([c] ++ b). rewrite (trimEnd_app_ink [c] b Hb).
    now exists (trimEnd b).
  - change (c :: b) with ([c] ++ b). rewrite (trimEnd_app_blank [c] b Hb).
    pose proof (trimEnd_last [] c H) as Hl. simpl in Hl. rewrite Hl.
    now exists [].
Qed.

Lemma trimEnd_head (c : N) (s : jsstring) :
  isWhiteSpace c = false -> exists r, trimEnd (c :: s) = c :: r.
Proof. intro H. apply (trimEnd_keeps [] s c H). Qed.

Lemma trim_head (s : jsstring) :
  trim s = [] \/ exists c r, trim s = c :: r /\ isWhiteSpace c = false.
Proof.
  unfold trim. destruct (trimStart_head s) as [H | (c & r & H & Hc)].
  - left. now rewrite H.
  - right. rewrite H. destruct (trimEnd_head c r Hc) as (r' & Hr).
    exists c, r'. now split.
Qed.

Lemma trim_tail (s : jsstring) :
  trim s = [] \/ exists a c, trim s = a ++ [c] /\ isWhiteSpace c = false.
Proof. unfold trim. apply trimEnd_tail. Qed.

Lemma trim_trimmed (s : jsstring) : trimmed (trim s).
Proof.
  unfold trimmed.
  destruct (trim_head s) as [H | (c & r & H & Hc)]; [now rewrite H|].
  destruct (trim_tail s) as [H' | (a & c' & H' & Hc')]; [now rewrite H'|].
  unfold trim at 1.
  assert (Hs : trimStart (trim s) = trim s).
  { rewrite H. simpl. now rewrite Hc. }
  rewrite Hs, H'. now apply trimEnd_last.
Qed.

Lemma startsWith_prefix (p s : jsstring) : startsWith (p ++ s) p = true.
Proof.
  induction p as [|c p IH]; [reflexivity|].
  simpl. now rewrite N.eqb_refl, IH.
Qed.

Lemma includes_app_l (a s p : jsstring) :
  includes s p = true -> includes (a ++ s) p = true.
Proof.
  intro H. induction a as [|c a IH]; [exact H|].
  simpl. rewrite IH. apply orb_true_r.
Qed.

Lemma includes_mid (a p b : jsstring) : includes (a ++ p ++ b) p = true.
Proof.
  apply includes_app_l.
  assert (H : forall s, startsWith s p = true -> includes s p = true).
  { intros s Hs. destruct s; simpl; now rewrite Hs. }
  apply H, startsWith_prefix.
Qed.

Lemma fold_left_append {A : Type} (step : jsstring -> A -> jsstring)
      (g : A -> jsstring) :
  (forall out x, step out x = out ++ g x) ->
  forall l out, fold_left step l out = out ++ concat (map g l).
Proof.
  intros Hstep l. induction l as [|x l IH]; intro out; simpl.
  - now rewrite app_nil_r.
  - rewrite IH, Hstep. now rewrite app_assoc.
Qed.

(* ------------------------------------------------------------------ *)
(** ** The shape of the formatted text *)

Lemma hasInk_mid (a b c : jsstring) :
  hasInk b = true -> hasInk (a ++ b ++ c) = true.
Proof.
  intro H. rewrite !hasInk_app, H. now rewrite orb_true_r.
Qed.

(** Each callback only appends to [output]. *)
Lemma formatMainDefinition_app (output : jsstring) (def : DefinitionEntry) :
  formatMainDefinition output def = output ++ formatMainDefinition [] def.
Proof.
  unfold formatMainDefinition.
  rewrite !(fold_left_append
              (fun out example => out ++ lit "  " ++ Phrase.Exemplo ++ example ++ Phrase.nl)
              (fun example => lit "  " ++ Phrase.Exemplo ++ example ++ Phrase.nl)
              (fun _ _ => eq_refl)).
  destruct (present (sense def)), (references def);
    repeat rewrite <- app_assoc; reflexivity.
Qed.

Lemma formatExpressionDefinition_app (output : jsstring) (def : DefinitionEntry) :
  formatExpressionDefinition output def
  = output ++ formatExpressionDefinition [] def.
Proof.
  unfold formatExpressionDefinition.
  rewrite !(fold_left_append
              (fun out example =>
                 out ++ lit "    " ++ Phrase.Exemplo ++ example ++ Phrase.nl)
              (fun example => lit "    " ++ Phrase.Exemplo ++ example ++ Phrase.nl)
              (fun _ _ => eq_refl)).
  destruct (present (sense def)), (references def);
    repeat rewrite <- app_assoc; reflexivity.
Qed.

Lemma formatExpression_app (output : jsstring) (expr : Expression) :
  formatExpression output expr = output ++ formatExpression [] expr.
Proof.
  unfold formatExpression.
  rewrite !(fold_left_append formatExpressionDefinition
              (formatExpressionDefinition []) formatExpressionDefinition_app).
  repeat rewrite <- app_assoc. reflexivity.
Qed.

(** The text of a definition stands in its block. *)
Lemma formatMainDefinition_text (def : DefinitionEntry) :
  exists u v, formatMainDefinition [] def = u ++ definition def ++ v.
Proof.
  unfold formatMainDefinition.
  rewrite (fold_left_append
             (fun out example => out ++ lit "  " ++ Phrase.Exemplo ++ example ++ Phrase.nl)
             (fun example => lit "  " ++ Phrase.Exemplo ++ example ++ Phrase.nl)
             (fun _ _ => eq_refl)).
  destruct (present (sense def)), (references def).
  - exists (textOr (sense def) ++ lit ". "). eexists.
    cbn [app]. repeat rewrite <- app_assoc. reflexivity.
  - exists (textOr (sense def) ++ lit ". "). eexists.
    cbn [app]. repeat rewrite <- app_assoc. reflexivity.
  - exists (lit "- "). eexists.
    cbn [app]. repeat rewrite <- app_assoc. reflexivity.
  - exists (lit "- "). eexists.
    cbn [app]. repeat rewrite <- app_assoc. reflexivity.
Qed.

Lemma formatExpressionDefinition_text (def : DefinitionEntry) :
  exists u v, formatExpressionDefinition [] def = u ++ definition def ++ v.
Proof.
  unfold formatExpressionDefinition.
  rewrite (fold_left_append
             (fun out example =>
                out ++ lit "    " ++ Phrase.Exemplo ++ example ++ Phrase.nl)
             (fun example => lit "    " ++ Phrase.Exemplo ++ example ++ Phrase.nl)
             (fun _ _ => eq_refl)).
  destruct (present (sense def)), (references def).
  - exists (lit "  " ++ textOr (sense def) ++ lit ". "). eexists.
    cbn [app]. repeat rewrite <- app_assoc. reflexivity.
  - exists (lit "  " ++ textOr (sense def) ++ lit ". "). eexists.
    cbn [app]. repeat rewrite <- app_assoc. reflexivity.
  - exists (lit "  - "). eexists.
    cbn [app]. repeat rewrite <- app_assoc. reflexivity.
  - exists (lit "  - "). eexists.
    cbn [app]. repeat rewrite <- app_assoc. reflexivity.
Qed.

(** [output] at line 126, section by section. *)
Lemma formatOutput_sections (entry : DictionaryEntry) :
  formatOutput entry
  = (Phrase.Palabra ++ word entry ++ Phrase.nl)
      ++ (if present (partOfSpeech entry)
          then Phrase.Categoria ++ textOr (partOfSpeech entry) ++ Phrase.nl
          else [])
      ++ Phrase.nl
      ++ (if Nat.ltb 0 (List.length (definitions entry))
          then Phrase.Definicions
                 ++ concat (map (formatMainDefinition []) (definitions entry))
          else [])
      ++ (if Nat.ltb 0 (List.length (expressions entry))
          then Phrase.Expresions
                 ++ concat (map (formatExpression []) (expressions entry))
          else [])
      ++ (if Nat.eqb (List.length (definitions entry)) 0
             && Nat.eqb (List.length (expressions entry)) 0
          then Phrase.SenDefinicions ++ Phrase.nl
          else []).
Proof.
  unfold formatOutput.
  rewrite !(fold_left_append formatMainDefinition (formatMainDefinition [])
              formatMainDefinition_app).
  rewrite !(fold_left_append formatExpression (formatExpression [])
              formatExpression_app).
  destruct (present (partOfSpeech entry)),
    (Nat.ltb 0 (List.length (definitions entry))),
    (Nat.ltb 0 (List.length (expressions entry))),
    (Nat.eqb (List.length (definitions entry)) 0
     && Nat.eqb (List.length (expressions entry)) 0);
    repeat rewrite <- app_assoc; repeat rewrite app_nil_r; reflexivity.
Qed.

(* ------------------------------------------------------------------ *)
(** ** What the extractor builds *)

Lemma orUndefined_not_empty (s : jsstring) : orUndefined s <> Some [].
Proof.
  unfold orUndefined. destruct s as [|c s]; simpl; discriminate.
Qed.

Lemma map_trim_trimmed {A : Type} (f : A -> jsstring) (l : list A) :
  Forall trimmed (map (fun x => trim (f x)) l).
Proof.
  induction l as [|x l IH]; simpl; constructor; [apply trim_trimmed | exact IH].
Qed.

Lemma senseStep_clean (acc : list DefinitionEntry * dom) (element : path) :
  Forall cleanDefinition (fst acc) ->
  Forall cleanDefinition (fst (senseStep acc element)).
Proof.
  destruct acc as [defs d]. cbn [fst]. intro H.
  destruct (isEmpty (definitionTextOf d element)) eqn:He.
  - now rewrite senseStep_skip.
  - rewrite senseStep_push by assumption. cbn [fst].
    apply Forall_app. split; [assumption|].
    constructor; [|constructor].
    unfold cleanDefinition. cbn [definition examples sense references].
    split; [now apply isEmpty_false|].
    split; [apply trim_trimmed|].
    split; [apply (map_trim_trimmed (textAt d))|].
    split; [apply orUndefined_not_empty|].
    now rewrite extractReferences_nil.
Qed.

Lemma fallbackStep_clean (acc : list DefinitionEntry * dom) (defEl : path) :
  Forall cleanDefinition (fst acc) ->
  Forall cleanDefinition (fst (fallbackStep acc defEl)).
Proof.
  destruct acc as [defs d]. cbn [fst]. intro H. unfold fallbackStep.
  destruct (isEmpty (definitionTextOf d defEl)) eqn:He; [assumption|].
  assert (Hrefs : fst (match parentOf d defEl with
                       | Some parent => extractReferences d parent
                       | None => ([], d)
                       end) = []).
  { destruct (parentOf d defEl); [apply extractReferences_nil | reflexivity]. }
  destruct (match parentOf d defEl with
            | Some parent => extractReferences d parent
            | None => ([], d)
            end) as [refs d'].
  cbn [fst] in *. subst refs.
  apply Forall_app. split; [assumption|].
  constructor; [|constructor].
  unfold cleanDefinition. cbn [definition examples sense references hd_error].
  split; [now apply isEmpty_false|].
  split; [apply trim_trimmed|].
  split; [apply (map_trim_trimmed (textAt d))|].
  split; [discriminate | reflexivity].
Qed.

Lemma expressionDefinitionsOf_clean (d : dom) (element : path) :
  Forall cleanDefinition (fst (expressionDefinitionsOf d element)).
Proof.
  unfold expressionDefinitionsOf.
  pose proof (fold_left_inv senseStep
                (fun acc => Forall cleanDefinition (fst acc))
                senseStep_clean (expressionSenses d element) ([], d)
                (Forall_nil _)) as Hs.
  destruct (fold_left senseStep (expressionSenses d element) ([], d))
    as [defs d1].
  destruct defs as [|dn defs]; [|exact Hs].
  apply (fold_left_inv fallbackStep
           (fun acc => Forall cleanDefinition (fst acc))).
  - apply fallbackStep_clean.
  - constructor.
Qed.

Lemma expressionStep_clean (acc : list Expression * dom) (element : path) :
  Forall cleanExpression (fst acc) ->
  Forall cleanExpression (fst (expressionStep acc element)).
Proof.
  destruct acc as [exprs d]. cbn [fst]. intro H. unfold expressionStep.
  destruct (startsWith (expressionTextOf d element) Marker.PalabrasRelacionadas);
    [assumption|].
  destruct (isEmpty (expressionTextOf d element)) eqn:He; [assumption|].
  pose proof (expressionDefinitionsOf_clean d element) as Hd.
  destruct (expressionDefinitionsOf d element) as [defs d'].
  cbn [fst] in Hd. cbn [negb andb].
  destruct defs as [|dn defs]; cbn [List.length Nat.eqb negb fst]; [assumption|].
  apply Forall_app. split; [assumption|].
  constructor; [|constructor].
  unfold cleanExpression. cbn [expression exprDefinitions].
  split; [now apply isEmpty_false|].
  split; [apply trim_trimmed|].
  split; [discriminate | assumption].
Qed.

Lemma parseDocument_clean (doc : node) (wordTitle : jsstring) :
  Forall cleanDefinition (definitions (parseDocument doc wordTitle)) /\
  Forall cleanExpression (expressions (parseDocument doc wordTitle)) /\
  trimmed (word (parseDocument doc wordTitle)) /\
  partOfSpeech (parseDocument doc wordTitle) <> Some [] /\
  (forall pos, partOfSpeech (parseDocument doc wordTitle) = Some pos -> trimmed pos).
Proof.
  unfold parseDocument.
  match goal with
  | |- context [fold_left senseStep ?l ?i] =>
      pose proof (fold_left_inv senseStep
                    (fun acc => Forall cleanDefinition (fst acc))
                    senseStep_clean l i (Forall_nil _)) as Hs;
      destruct (fold_left senseStep l i) as [defs d1]
  end.
  match goal with
  | |- context [fold_left expressionStep ?l ?i] =>
      pose proof (fold_left_inv expressionStep
                    (fun acc => Forall cleanExpression (fst acc))
                    expressionStep_clean l i (Forall_nil _)) as He;
      destruct (fold_left expressionStep l i) as [exprs d2]
  end.
  cbn [definitions expressions word partOfSpeech].
  split; [exact Hs|]. split; [exact He|]. split; [|split].
  - match goal with
    | |- trimmed (if ?b then _ else _) => destruct b
    end; apply trim_trimmed.
  - apply orUndefined_not_empty.
  - intros pos Hpos. unfold orUndefined in Hpos.
    match type of Hpos with
    | (if ?b then _ else _) = _ => destruct b; [discriminate|]
    end.
    injection Hpos as <-. apply trim_trimmed.
Qed.

(* ------------------------------------------------------------------ *)
(** ** More on [parseHtmlContent] and [extractReferences] *)

Lemma descend_reaches :
  forall (q : path) (n : node) (p : path) nm cs ks,
    q <> [] ->
    nodeAt n q = Some (Elem nm cs ks) ->
    In (p ++ q) (descend [] p n).
Proof.
  induction q as [|i r IH]; intros n p nm cs ks Hq Hn; [congruence|].
  destruct n as [t | t | nm0 cs0 ks0]; try discriminate.
  simpl in Hn. destruct (nth_error ks0 i) as [k|] eqn:Hi; [|discriminate].
  simpl descend.
  apply (mapiCat_In _ ks0 (p ++ i :: r) 0 i k Hi). simpl.
  destruct r as [|j r'].
  - simpl in Hn. injection Hn as ->. now left.
  - destruct k as [t | t | nm1 cs1 ks1]; try discriminate.
    right. replace (p ++ i :: j :: r') with ((p ++ [i]) ++ j :: r')
      by now rewrite <- app_assoc.
    apply (IH _ _ nm cs ks); [discriminate | exact Hn].
Qed.

(** A class that [$] finds nowhere marks no node below the root. *)
Lemma class_nowhere (doc : node) (c : simple) :
  find (mkDom doc []) [] (Sel c) = [] ->
  forall a, a <> [] -> matchAt doc c a = false.
Proof.
  intros Hnone a Ha. destruct (matchAt doc c a) eqn:Hm; [|reflexivity].
  exfalso. destruct (matchAt_elem doc c a Hm) as (nm & cs & ks & Hn).
  pose proof (descend_reaches a doc [] nm cs ks Ha Hn) as Hin.
  assert (Hf : In a (find (mkDom doc []) [] (Sel c))).
  { unfold find. simpl. apply filter_In. split; [exact Hin | exact Hm]. }
  rewrite Hnone in Hf. destruct Hf.
Qed.

Lemma no_element_nil {A : Type} (l : list A) : (forall x, ~ In x l) -> l = [].
Proof.
  destruct l as [|x l]; [reflexivity|]. intro H. exfalso. apply (H x). now left.
Qed.

Lemma expressionStep_without_subentry (doc : node) :
  find (mkDom doc []) [] (Sel (Cls Marker.Subentry)) = [] ->
  forall exprs dt element,
    element <> [] ->
    expressionStep (exprs, mkDom doc dt) element = (exprs, mkDom doc dt).
Proof.
  intros Hnone exprs dt element Hel.
  pose proof (class_nowhere doc _ Hnone) as Hno.
  assert (Hanc : forall q a, In a (between element q) -> a <> []).
  { intros q a Ha Hnil. apply between_spec in Ha.
    destruct Ha as (k & Hk1 & Hk2 & ->).
    apply (f_equal (@List.length nat)) in Hnil.
    rewrite length_firstn in Hnil. simpl in Hnil.
    destruct element; [congruence | simpl in Hk1; lia]. }
  assert (Hsenses : expressionSenses (mkDom doc dt) element = []).
  { apply no_element_nil. intros q Hq.
    apply expressionSenses_spec in Hq. destruct Hq as (_ & a & Ha & Hm).
    simpl in Hm. rewrite Hno in Hm; [discriminate|]. now apply (Hanc q). }
  assert (Hfall : find (mkDom doc dt) element
                       (SelChild (Cls Marker.Subentry) (Cls Marker.DefinitionBlock))
                  = []).
  { apply no_element_nil. intros q Hq. unfold find in Hq. simpl in Hq.
    destruct (nodeAt doc element) as [n|]; [|destruct Hq].
    apply filter_In in Hq. destruct Hq as [Hdesc Hq]. cbn [matches] in Hq.
    apply andb_true_iff in Hq. destruct Hq as [_ Hpar].
    rewrite Hno in Hpar; [discriminate|].
    apply (Hanc q). now apply (parent_between dt element q n). }
  unfold expressionStep, expressionDefinitionsOf.
  rewrite Hsenses. cbn [fold_left]. rewrite Hfall. cbn [fold_left].
  destruct (startsWith (expressionTextOf (mkDom doc dt) element)
                       Marker.PalabrasRelacionadas); [reflexivity|].
  destruct (isEmpty (expressionTextOf (mkDom doc dt) element)); [reflexivity|].
  cbn [List.length Nat.eqb negb andb]. reflexivity.
Qed.

(** Without a [.Subentry] element anywhere the entry is empty, whatever
    [.Fraseoloxia] blocks the fragment holds: the senses and the definitions
    of an expression are only looked for below a [.Subentry]. *)
Theorem parseDocument_without_subentry (doc : node) (wordTitle : jsstring) :
  find (mkDom doc []) [] (Sel (Cls Marker.Subentry)) = [] ->
  parseDocument doc wordTitle = mkEntry (trim wordTitle) None [] [].
Proof.
  intro Hnone. unfold parseDocument. rewrite Hnone.
  cbn [first findSel map concat textSel fold_left].
  assert (Hfold : forall l exprs,
             (forall el, In el l -> el <> []) ->
             fold_left expressionStep l (exprs, mkDom doc [])
             = (exprs, mkDom doc [])).
  { induction l as [|x l IH]; intros exprs Hl; [reflexivity|].
    cbn [fold_left].
    rewrite (expressionStep_without_subentry doc Hnone)
      by (apply Hl; now left).
    apply IH. intros el Hin. apply Hl. now right. }
  rewrite Hfold; [reflexivity|].
  intros el Hin Hnil. subst el.
  unfold find in Hin. cbn [root det nodeAt] in Hin.
  apply filter_In in Hin. destruct Hin as [Hin _].
  apply descend_below_context in Hin. destruct Hin as (r & Hr & Heq).
  destruct r; [congruence | discriminate].
Qed.

(** Witness: a page whose only block is an expression with a sense and no
    sub-entry container. *)
Lemma parseDocument_without_subentry_witness :
  parseDocument (Sample.page [Sample.bareSense]) (lit " casa ")
  = mkEntry (lit "casa") None [] [].
Proof.
  apply (parseDocument_without_subentry (Sample.page [Sample.bareSense]) (lit " casa ")).
  reflexivity.
Defined.

(** No Definition of the returned entry carries references: the links of a
    references block are removed from the DOM before they are read. *)
Theorem parseDocument_never_attaches_references (doc : node) (wordTitle : jsstring) :
  Forall (fun dn => references dn = None)
         (definitions (parseDocument doc wordTitle)) /\
  Forall (fun x => Forall (fun dn => references dn = None) (exprDefinitions x))
         (expressions (parseDocument doc wordTitle)).
Proof.
  destruct (parseDocument_clean doc wordTitle) as (Hd & He & _).
  split.
  - eapply Forall_impl; [|exact Hd]. intros dn (_ & _ & _ & _ & H). exact H.
  - eapply Forall_impl; [|exact He]. intros x (_ & _ & _ & H).
    eapply Forall_impl; [|exact H]. intros dn (_ & _ & _ & _ & H'). exact H'.
Qed.

(** The strings of the returned entry are trimmed: the word, the part of
    speech, every definition text, every example and every expression
    text. *)
Theorem parseDocument_strings_trimmed (doc : node) (wordTitle : jsstring) :
  let entry := parseDocument doc wordTitle in
  trim (word entry) = word entry /\
  (forall pos, partOfSpeech entry = Some pos -> trim pos = pos) /\
  Forall (fun dn => trim (definition dn) = definition dn /\
                    Forall (fun ex => trim ex = ex) (examples dn))
         (definitions entry) /\
  Forall (fun x => trim (expression x) = expression x /\
                   Forall (fun dn => trim (definition dn) = definition dn /\
                                     Forall (fun ex => trim ex = ex) (examples dn))
                          (exprDefinitions x))
         (expressions entry).
Proof.
  cbv zeta.
  destruct (parseDocument_clean doc wordTitle) as (Hd & He & Hw & _ & Hp).
  assert (Hdef : forall l, Forall cleanDefinition l ->
                           Forall (fun dn => trim (definition dn) = definition dn /\
                                             Forall (fun ex => trim ex = ex) (examples dn)) l).
  { intros l Hl. eapply Forall_impl; [|exact Hl].
    intros dn (_ & H1 & H2 & _). split; [exact H1 | exact H2]. }
  split; [exact Hw|]. split; [exact Hp|]. split; [now apply Hdef|].
  eapply Forall_impl; [|exact He]. intros x (_ & H1 & _ & H2).
  split; [exact H1 | now apply Hdef].
Qed.

(** Witness: the part of speech of the sample entry is stored trimmed. *)
Lemma parseDocument_strings_trimmed_witness :
  trim (lit "substantivo feminino") = lit "substantivo feminino".
Proof.
  destruct (parseDocument_strings_trimmed Sample.casa (lit "Casa")) as (_ & Hp & _).
  apply Hp. reflexivity.
Defined.

(** An optional string of the returned entry is absent rather than empty:
    neither the part of speech nor any sense label is the empty string. *)
Theorem parseDocument_optional_not_empty (doc : node) (wordTitle : jsstring) :
  let entry := parseDocument doc wordTitle in
  partOfSpeech entry <> Some [] /\
  Forall (fun dn => sense dn <> Some []) (definitions entry) /\
  Forall (fun x => Forall (fun dn => sense dn <> Some []) (exprDefinitions x))
         (expressions entry).
Proof.
  cbv zeta.
  destruct (parseDocument_clean doc wordTitle) as (Hd & He & _ & Hp & _).
  split; [exact Hp|]. split.
  - eapply Forall_impl; [|exact Hd]. intros dn (_ & _ & _ & H & _). exact H.
  - eapply Forall_impl; [|exact He]. intros x (_ & _ & _ & H).
    eapply Forall_impl; [|exact H]. intros dn (_ & _ & _ & H' & _). exact H'.
Qed.

(** *** The DOM after [extractReferences] *)






Lemma referencesStep_snd (acc : list Reference * dom) (r : path) :
  snd (referencesStep acc r) = removeChildren (snd acc) r.
Proof.
  destruct acc as [l d]. simpl.
  now destruct (emitReference (removeChildren d r) r
                  (trim (textAt (removeChildren d r) r))).
Qed.





(* ------------------------------------------------------------------ *)
(** ** More on [parseResponse], and [searchWord] *)

Section LocatorFacts.

Variable load : jsstring -> node.
Variable loadOther : json -> outcome node.

Lemma getField_object (data : json) (key : jsstring) (v : json) :
  getField data key = v -> v <> JUndefined -> exists fields, data = JObj fields.
Proof.
  intros H Hv. destruct data; simpl in H; try congruence. now eexists.
Qed.

Lemma parseResponse_first (data : json) (word : jsstring) (item : json)
      (rest : list json) :
  getField data (lit "items") = JArr (item :: rest) ->
  parseResponse load loadOther data word
  = tryCatch
      (if negb (truthy (getOptional item (lit "htmlContent"))) then Ret None
       else
         entry <- parseHtmlContentAny load loadOther
                    (getOptional item (lit "htmlContent"))
                    (if truthy (getOptional item (lit "title"))
                     then getOptional item (lit "title") else JStr word) ;;
         Ret (Some entry))
      (Ret None).
Proof.
  intro H.
  destruct (getField_object data _ _ H) as (fields & ->); [discriminate|].
  unfold parseResponse. rewrite H. reflexivity.
Qed.

(** Only the first item of the payload is looked at: two payloads whose item
    lists start with the same item give the same result. *)
Theorem parseResponse_first_item_only (data data' : json) (word : jsstring)
        (item : json) (rest rest' : list json) :
  getField data (lit "items") = JArr (item :: rest) ->
  getField data' (lit "items") = JArr (item :: rest') ->
  parseResponse load loadOther data word = parseResponse load loadOther data' word.
Proof.
  intros H H'.
  now rewrite (parseResponse_first data word item rest H),
              (parseResponse_first data' word item rest' H').
Qed.

(** With a non-empty markup string in the first item, the entry is extracted
    under the title of the item when that is a non-empty string, and under
    the searched word when the item has no title or a falsy one. *)
Theorem parseResponse_title_fallback (data : json) (word : jsstring)
        (item : json) (rest : list json) (html : jsstring) :
  getField data (lit "items") = JArr (item :: rest) ->
  getOptional item (lit "htmlContent") = JStr html ->
  html <> [] ->
  (forall t, getOptional item (lit "title") = JStr t -> t <> [] ->
             parseResponse load loadOther data word
             = Ret (Some (parseHtmlContent load html t))) /\
  (truthy (getOptional item (lit "title")) = false ->
   parseResponse load loadOther data word
   = Ret (Some (parseHtmlContent load html word))).
Proof.
  intros Hitems Hhtml Hne.
  rewrite (parseResponse_first data word item rest Hitems), Hhtml.
  assert (Ht : truthy (JStr html) = true).
  { simpl. destruct html; [congruence | reflexivity]. }
  rewrite Ht. cbn [negb]. split.
  - intros t Htitle Htne. rewrite Htitle.
    assert (Ht' : truthy (JStr t) = true).
    { simpl. destruct t; [congruence | reflexivity]. }
    rewrite Ht'. reflexivity.
  - intro Hfalsy. rewrite Hfalsy. reflexivity.
Qed.

Lemma parseResponse_returns (data : json) (word : jsstring) :
  exists r, parseResponse load loadOther data word = Ret r.
Proof.
  unfold parseResponse, tryCatch.
  match goal with
  | |- exists r, match ?m with Ret a => _ | Throw => _ end = _ =>
      destruct m as [a|]; eexists; reflexivity
  end.
Qed.

(** [parseResponse] never throws: it returns an entry or null for every
    payload.  A first item whose title is truthy but not a string makes
    [wordTitle.trim()] throw, which is caught and turned into null; so is
    a failure of the HTML loader. *)
Theorem parseResponse_swallows_errors (data : json) (word : jsstring) :
  (exists r, parseResponse load loadOther data word = Ret r) /\
  (forall item rest,
      getField data (lit "items") = JArr (item :: rest) ->
      truthy (getOptional item (lit "htmlContent")) = true ->
      truthy (getOptional item (lit "title")) = true ->
      (forall t, getOptional item (lit "title") <> JStr t) ->
      parseResponse load loadOther data word = Ret None) /\
  (forall item rest,
      getField data (lit "items") = JArr (item :: rest) ->
      truthy (getOptional item (lit "htmlContent")) = true ->
      (forall s, getOptional item (lit "htmlContent") <> JStr s) ->
      loadOther (getOptional item (lit "htmlContent")) = Throw ->
      parseResponse load loadOther data word = Ret None).
Proof.
  split; [|split].
  - apply parseResponse_returns.
  - intros item rest Hitems Hhtml Htitle Hnot.
    rewrite (parseResponse_first data word item rest Hitems), Hhtml, Htitle.
    cbn [negb]. unfold parseHtmlContentAny.
    destruct (match getOptional item (lit "htmlContent") with
              | JStr s => Ret (load s)
              | _ => loadOther (getOptional item (lit "htmlContent"))
              end) as [doc|]; [|reflexivity].
    cbn [bind].
    destruct (getOptional item (lit "title")) as [| | b | x | t | l | fields];
      try reflexivity.
    now destruct (Hnot t).
  - intros item rest Hitems Hhtml Hnot Hthrow.
    rewrite (parseResponse_first data word item rest Hitems), Hhtml.
    cbn [negb]. unfold parseHtmlContentAny.
    destruct (getOptional item (lit "htmlContent")) as [| | b | x | s | l | fields];
      try (now rewrite Hthrow).
    now destruct (Hnot s).
Qed.

(** Every entry [parseResponse] returns was built by the extractor from some
    document and some title. *)
Lemma parseResponse_some (data : json) (word : jsstring) (entry : DictionaryEntry) :
  parseResponse load loadOther data word = Ret (Some entry) ->
  exists doc t, entry = parseDocument doc t.
Proof.
  unfold parseResponse.
  destruct (negb (truthy data) || negb (typeofObject data)); [discriminate|].
  destruct (negb (truthy (getField data (lit "items")))
            || negb (isArray (getField data (lit "items")))
            || Nat.eqb (List.length (elements (getField data (lit "items")))) 0);
    [discriminate|].
  destruct (negb (truthy (getOptional
                            (nth 0 (elements (getField data (lit "items"))) JUndefined)
                            (lit "htmlContent")))); [discriminate|].
  match goal with
  | |- context [parseHtmlContentAny load loadOther ?h ?w] =>
      destruct (parseHtmlContentAny load loadOther h w) as [e|] eqn:Hp;
      [|discriminate];
      remember h as html eqn:Hh; remember w as wordTitle eqn:Hw
  end.
  cbn [bind tryCatch]. intro H. injection H as <-.
  unfold parseHtmlContentAny in Hp.
  destruct (match html with
            | JStr s => Ret (load s)
            | _ => loadOther html
            end) as [doc|]; [|discriminate].
  cbn [bind] in Hp.
  destruct wordTitle as [| | b | x | t | l | fields]; try discriminate.
  injection Hp as <-. now exists doc, t.
Qed.

Variable formEncode : list (jsstring * jsstring) -> jsstring.
Variable post : jsstring -> jsstring -> outcome (N * json).

Let request (word : jsstring) : outcome (N * json) :=
  post (Request.baseUrl ++ lit "?" ++ formEncode (Request.params word))
       (formEncode (Request.formData word)).

Lemma searchWord_returns (word : jsstring) :
  exists r, searchWord load loadOther formEncode post word = Ret r.
Proof.
  unfold searchWord.
  destruct (post (Request.baseUrl ++ lit "?" ++ formEncode (Request.params word))
                 (formEncode (Request.formData word))) as [[status data]|].
  - cbn [bind fst snd]. destruct (negb (N.eqb status 200)); [now eexists|].
    destruct (parseResponse_returns data word) as (r & Hr).
    rewrite Hr. now eexists.
  - now eexists.
Qed.

Lemma searchWord_rejected (word : jsstring) :
  request word = Throw ->
  searchWord load loadOther formEncode post word = Ret None.
Proof. unfold request, searchWord. now intros ->. Qed.

Lemma searchWord_status (word : jsstring) (status : N) (data : json) :
  request word = Ret (status, data) -> status <> 200%N ->
  searchWord load loadOther formEncode post word = Ret None.
Proof.
  unfold request, searchWord. intros -> Hs. cbn [bind fst snd].
  apply N.eqb_neq in Hs. now rewrite Hs.
Qed.

(** [searchWord] never throws.  It returns null when the request is rejected
    and when the status is not 200, and what [parseResponse] returns for the
    data of the response otherwise. *)
Theorem searchWord_soft_failure (word : jsstring) :
  (exists r, searchWord load loadOther formEncode post word = Ret r) /\
  (request word = Throw ->
   searchWord load loadOther formEncode post word = Ret None) /\
  (forall status data,
      request word = Ret (status, data) -> status <> 200%N ->
      searchWord load loadOther formEncode post word = Ret None) /\
  (forall data,
      request word = Ret (200%N, data) ->
      searchWord load loadOther formEncode post word
      = parseResponse load loadOther data word).
Proof.
  split; [apply searchWord_returns|].
  split; [apply searchWord_rejected|].
  split; [apply searchWord_status|].
  intros data H. unfold request in H. unfold searchWord. rewrite H.
  cbn [bind fst snd N.eqb negb].
  destruct (parseResponse_returns data word) as (r & Hr). now rewrite Hr.
Qed.

(** Whatever the server answers, an entry returned by [searchWord] has only
    definitions with a non-empty trimmed text and no references, and only
    expressions with a non-empty trimmed text and at least one definition. *)
Theorem searchWord_entry_clean (query : jsstring) (entry : DictionaryEntry) :
  searchWord load loadOther formEncode post query = Ret (Some entry) ->
  trim (word entry) = word entry /\
  Forall cleanDefinition (definitions entry) /\
  Forall cleanExpression (expressions entry).
Proof.
  unfold searchWord.
  destruct (post (Request.baseUrl ++ lit "?" ++ formEncode (Request.params query))
                 (formEncode (Request.formData query))) as [[status data]|];
    [|discriminate].
  cbn [bind fst snd].
  destruct (negb (N.eqb status 200)); [discriminate|].
  intro H.
  assert (Hp : parseResponse load loadOther data query = Ret (Some entry)).
  { destruct (parseResponse load loadOther data query) as [r|]; [exact H | discriminate]. }
  destruct (parseResponse_some data query entry Hp) as (doc & t & ->).
  destruct (parseDocument_clean doc t) as (Hd & He & Hw & _).
  split; [exact Hw|]. now split.
Qed.

End LocatorFacts.

(* ------------------------------------------------------------------ *)
(** ** [formatDictionaryEntry] *)

(** A concatenation holding the phrase [L] has ink. *)
Ltac ink_by L :=
  rewrite !hasInk_app;
  replace (hasInk L) with true by reflexivity;
  repeat (rewrite orb_true_r || rewrite orb_true_l);
  reflexivity.

Lemma formatOutput_tail (entry : DictionaryEntry) :
  exists tail,
    formatOutput entry = (Phrase.Palabra ++ word entry ++ Phrase.nl) ++ tail /\
    hasInk tail = true.
Proof.
  rewrite formatOutput_sections. eexists. split; [reflexivity|].
  destruct (definitions entry) as [|dn defs], (expressions entry) as [|x xs];
    cbn [List.length Nat.ltb Nat.leb Nat.eqb andb].
  - ink_by Phrase.SenDefinicions.
  - ink_by Phrase.Expresions.
  - ink_by Phrase.Definicions.
  - ink_by Phrase.Definicions.
Qed.

Lemma trimStart_formatOutput (entry : DictionaryEntry) :
  trimStart (formatOutput entry) = formatOutput entry.
Proof.
  destruct (formatOutput_tail entry) as (tail & -> & _). reflexivity.
Qed.

Lemma formatDictionaryEntry_head (entry : DictionaryEntry) :
  exists rest,
    formatDictionaryEntry entry
    = Phrase.Palabra ++ word entry ++ Phrase.nl ++ rest /\ rest <> [].
Proof.
  unfold formatDictionaryEntry, trim. rewrite trimStart_formatOutput.
  destruct (formatOutput_tail entry) as (tail & -> & Hink).
  rewrite (trimEnd_app_ink _ tail Hink).
  exists (trimEnd tail). split; [now repeat rewrite <- app_assoc|].
  intro Hnil. unfold trimEnd in Hnil. apply (f_equal (@rev N)) in Hnil.
  rewrite rev_involutive in Hnil. simpl in Hnil.
  assert (Hb : hasInk (rev tail) = true) by now rewrite hasInk_rev.
  clear - Hnil Hb. induction (rev tail) as [|c l IH]; [discriminate|].
  simpl in *. destruct (isWhiteSpace c); [now apply IH | discriminate].
Qed.

(** The formatted text opens with the headword line, which is followed by
    more text, and it does not end with white space. *)
Theorem formatDictionaryEntry_header (entry : DictionaryEntry) :
  (exists rest,
      formatDictionaryEntry entry
      = Phrase.Palabra ++ word entry ++ Phrase.nl ++ rest /\
      rest <> []) /\
  (exists a c, formatDictionaryEntry entry = a ++ [c] /\ isWhiteSpace c = false).
Proof.
  split; [apply formatDictionaryEntry_head|].
  destruct (trim_tail (formatOutput entry)) as [Hnil | H]; [|exact H].
  destruct (formatDictionaryEntry_head entry) as (rest & Hrest & _).
  unfold formatDictionaryEntry in Hrest. rewrite Hnil in Hrest. discriminate.
Qed.

(** For an entry without definitions and without expressions the text is the
    headword line, the part of speech line when there is one, an empty line
    and the notice that nothing specific was found. *)
Theorem formatDictionaryEntry_empty_entry (w : jsstring) (pos : option jsstring) :
  formatDictionaryEntry (mkEntry w pos [] [])
  = Phrase.Palabra ++ w ++ Phrase.nl
      ++ (if present pos then Phrase.Categoria ++ textOr pos ++ Phrase.nl else [])
      ++ Phrase.nl ++ Phrase.SenDefinicions.
Proof.
  unfold formatDictionaryEntry, trim. rewrite trimStart_formatOutput.
  rewrite formatOutput_sections.
  cbn [definitions expressions word partOfSpeech List.length Nat.ltb Nat.leb
       Nat.eqb andb].
  change Phrase.SenDefinicions
    with (removelast Phrase.SenDefinicions ++ [46%N]).
  set (body := removelast Phrase.SenDefinicions).
  replace ((Phrase.Palabra ++ w ++ Phrase.nl)
             ++ (if present pos
                 then Phrase.Categoria ++ textOr pos ++ Phrase.nl else [])
             ++ Phrase.nl ++ [] ++ [] ++ (body ++ [46%N]) ++ Phrase.nl)
    with (((Phrase.Palabra ++ w ++ Phrase.nl
              ++ (if present pos
                  then Phrase.Categoria ++ textOr pos ++ Phrase.nl else [])
              ++ Phrase.nl ++ body) ++ [46%N]) ++ Phrase.nl)
    by (cbn [app]; repeat rewrite <- app_assoc; reflexivity).
  rewrite trimEnd_app_blank by reflexivity.
  rewrite trimEnd_last by reflexivity.
  repeat rewrite <- app_assoc. reflexivity.
Qed.

Lemma concat_map_split {A : Type} (g : A -> jsstring) (l : list A) (x : A) :
  In x l -> exists pre post, concat (map g l) = pre ++ g x ++ post.
Proof.
  intro H. apply in_split in H. destruct H as (l1 & l2 & ->).
  exists (concat (map g l1)), (concat (map g l2)).
  now rewrite map_app, concat_app.
Qed.

Lemma includes_prefix (s p q : jsstring) :
  includes s (p ++ q) = true -> includes s p = true.
Proof.
  induction s as [|c s IH]; simpl; intro H.
  - rewrite orb_false_r in *. now apply startsWith_app in H.
  - apply orb_true_iff in H. destruct H as [H | H].
    + apply startsWith_app in H. now rewrite H.
    + rewrite (IH H). apply orb_true_r.
Qed.

(** A piece of [output] that ends in a code unit [trim] does not strip is
    still there after line 126. *)
Lemma formatDictionaryEntry_keeps (entry : DictionaryEntry)
      (u a v : jsstring) (c : N) :
  formatOutput entry = u ++ (a ++ [c]) ++ v ->
  isWhiteSpace c = false ->
  includes (formatDictionaryEntry entry) (a ++ [c]) = true.
Proof.
  intros Heq Hc. unfold formatDictionaryEntry, trim.
  rewrite trimStart_formatOutput, Heq.
  replace (u ++ (a ++ [c]) ++ v) with ((u ++ a) ++ c :: v)
    by (repeat rewrite <- app_assoc; reflexivity).
  destruct (trimEnd_keeps (u ++ a) v c Hc) as (r & ->).
  replace ((u ++ a) ++ c :: r) with (u ++ (a ++ [c]) ++ r)
    by (repeat rewrite <- app_assoc; reflexivity).
  apply includes_mid.
Qed.

Lemma mid_app_l (D a s : jsstring) :
  (exists u v, s = u ++ D ++ v) -> exists u v, a ++ s = u ++ D ++ v.
Proof.
  intros (u & v & ->). exists (a ++ u), v. now rewrite <- app_assoc.
Qed.

Lemma mid_app_r (D s b : jsstring) :
  (exists u v, s = u ++ D ++ v) -> exists u v, s ++ b = u ++ D ++ v.
Proof.
  intros (u & v & ->). exists u, (v ++ b). now repeat rewrite <- app_assoc.
Qed.

Lemma formatOutput_definition (entry : DictionaryEntry) (dn : DefinitionEntry) :
  In dn (definitions entry) ->
  exists u v, formatOutput entry = u ++ definition dn ++ v.
Proof.
  intro Hin. rewrite formatOutput_sections.
  destruct (definitions entry) as [|d0 defs] eqn:Hdefs; [destruct Hin|].
  cbn [List.length Nat.ltb Nat.leb].
  destruct (concat_map_split (formatMainDefinition []) (d0 :: defs) dn Hin)
    as (pre & post & ->).
  apply mid_app_l, mid_app_l, mid_app_l, mid_app_r, mid_app_l, mid_app_l, mid_app_r.
  apply formatMainDefinition_text.
Qed.

Lemma formatExpression_eq (expr : Expression) :
  formatExpression [] expr
  = Phrase.nl ++ lit "* " ++ expression expr ++ lit " *" ++ Phrase.nl
      ++ concat (map (formatExpressionDefinition []) (exprDefinitions expr)).
Proof.
  unfold formatExpression.
  rewrite (fold_left_append formatExpressionDefinition
             (formatExpressionDefinition []) formatExpressionDefinition_app).
  cbn [app]. repeat rewrite <- app_assoc. reflexivity.
Qed.

Lemma formatOutput_expression (entry : DictionaryEntry) (x : Expression) :
  In x (expressions entry) ->
  exists u v, formatOutput entry = u ++ formatExpression [] x ++ v.
Proof.
  intro Hin. rewrite formatOutput_sections.
  destruct (expressions entry) as [|x0 xs] eqn:Hx; [destruct Hin|].
  cbn [List.length Nat.ltb Nat.leb].
  destruct (concat_map_split (formatExpression []) (x0 :: xs) x Hin)
    as (pre & post & ->).
  apply mid_app_l, mid_app_l, mid_app_l, mid_app_l, mid_app_r, mid_app_l, mid_app_l,
    mid_app_r.
  exists [], []. cbn [app]. now rewrite app_nil_r.
Qed.

Lemma trimmed_last (s : jsstring) :
  s <> [] -> trimmed s -> exists a c, s = a ++ [c] /\ isWhiteSpace c = false.
Proof.
  intros Hne Ht. unfold trimmed in Ht.
  destruct (trim_tail s) as [H | H]; rewrite Ht in H; [congruence | exact H].
Qed.

Lemma formatDictionaryEntry_keeps_definition (entry : DictionaryEntry)
      (dn : DefinitionEntry) :
  In dn (definitions entry) ->
  definition dn <> [] -> trimmed (definition dn) ->
  includes (formatDictionaryEntry entry) (definition dn) = true.
Proof.
  intros Hin Hne Ht.
  destruct (trimmed_last _ Hne Ht) as (a & c & Hd & Hc).
  destruct (formatOutput_definition entry dn Hin) as (u & v & Hout).
  rewrite Hd in *. now apply (formatDictionaryEntry_keeps entry u a v c).
Qed.

Lemma formatOutput_expression_definition (entry : DictionaryEntry)
      (x : Expression) (dn : DefinitionEntry) :
  In x (expressions entry) -> In dn (exprDefinitions x) ->
  exists u v, formatOutput entry = u ++ definition dn ++ v.
Proof.
  intros Hx Hdn.
  destruct (formatOutput_expression entry x Hx) as (u & v & ->).
  apply mid_app_l, mid_app_r. rewrite formatExpression_eq.
  destruct (concat_map_split (formatExpressionDefinition []) _ dn Hdn)
    as (pre & post & ->).
  apply mid_app_l, mid_app_l, mid_app_l, mid_app_l, mid_app_l, mid_app_l, mid_app_r.
  apply formatExpressionDefinition_text.
Qed.

Lemma formatDictionaryEntry_keeps_expression (entry : DictionaryEntry)
      (x : Expression) :
  In x (expressions entry) ->
  includes (formatDictionaryEntry entry) (expression x) = true.
Proof.
  intro Hx.
  destruct (formatOutput_expression entry x Hx) as (u & v & Hout).
  rewrite formatExpression_eq in Hout.
  apply (includes_prefix _ (expression x) (lit " *")).
  change (lit " *") with ([32%N] ++ [42%N]).
  rewrite app_assoc.
  apply (formatDictionaryEntry_keeps entry
           (u ++ Phrase.nl ++ lit "* ") (expression x ++ [32%N])
           (Phrase.nl
              ++ concat (map (formatExpressionDefinition []) (exprDefinitions x))
              ++ v) 42%N); [|reflexivity].
  rewrite Hout. change (lit " *") with ([32%N] ++ [42%N]).
  repeat rewrite <- app_assoc. reflexivity.
Qed.

(** Formatting loses nothing of what was extracted: every definition text
    and every expression text of an entry built by [parseHtmlContent] stands
    verbatim in the text [formatDictionaryEntry] makes of that entry. *)
Theorem format_shows_extracted_texts (doc : node) (wordTitle : jsstring) :
  let entry := parseDocument doc wordTitle in
  (forall dn, In dn (definitions entry) ->
              includes (formatDictionaryEntry entry) (definition dn) = true) /\
  (forall x, In x (expressions entry) ->
             includes (formatDictionaryEntry entry) (expression x) = true /\
             forall dn, In dn (exprDefinitions x) ->
                        includes (formatDictionaryEntry entry) (definition dn) = true).
Proof.
  cbv zeta.
  destruct (parseDocument_clean doc wordTitle) as (Hd & He & _).
  split.
  - intros dn Hin.
    destruct (proj1 (Forall_forall _ _) Hd dn Hin) as (Hne & Ht & _).
    now apply formatDictionaryEntry_keeps_definition.
  - intros x Hx. split; [now apply formatDictionaryEntry_keeps_expression|].
    intros dn Hdn.
    destruct (proj1 (Forall_forall _ _) He x Hx) as (_ & _ & _ & Hdefs).
    destruct (proj1 (Forall_forall _ _) Hdefs dn Hdn) as (Hne & Ht & _).
    destruct (trimmed_last _ Hne Ht) as (a & c & Hdef & Hc).
    destruct (formatOutput_expression_definition _ x dn Hx Hdn) as (u & v & Hout).
    rewrite Hdef in *.
    now apply (formatDictionaryEntry_keeps _ u a v c).
Qed.

(** Witness: the definition of the sample entry stands in its text. *)
Lemma format_shows_extracted_texts_witness :
  includes (formatDictionaryEntry (parseDocument Sample.casa (lit "Casa")))
           (lit "Edificio para vivir") = true.
Proof.
  destruct (format_shows_extracted_texts Sample.casa (lit "Casa")) as [Hdefs _].
  apply (Hdefs (mkDefinition (Some (lit "1")) (lit "Edificio para vivir")
                             [lit "A casa e grande"] None)).
  vm_compute. now left.
Defined.

(** The text of the sample entry. *)
Example format_casa :
  formatDictionaryEntry (parseDocument Sample.casa (lit "Casa"))
  = Phrase.Palabra ++ lit "casa" ++ Phrase.nl
      ++ Phrase.Categoria ++ lit "substantivo feminino" ++ Phrase.nl
      ++ Phrase.nl
      ++ Phrase.Definicions
      ++ lit "1. Edificio para vivir" ++ Phrase.nl
      ++ lit "  Exemplo: A casa e grande".
Proof. vm_compute. reflexivity. Qed.

(* ------------------------------------------------------------------ *)
(** ** The tool call handler *)

Lemma jseqb_eq (a b : jsstring) : Js.eqb a b = true <-> a = b.
Proof.
  revert b. induction a as [|x a IH]; intros [|y b]; simpl;
    try (split; intro H; congruence).
  rewrite andb_true_iff, N.eqb_eq, IH. split.
  - intros [-> ->]. reflexivity.
  - intro H. injection H as -> ->. now split.
Qed.

Section HandlerFacts.

Variable load : jsstring -> node.
Variable loadOther : json -> outcome node.
Variable formEncode : list (jsstring * jsstring) -> jsstring.
Variable post : jsstring -> jsstring -> outcome (N * json).
Variable zodTypeMessage : jsstring -> json -> jsstring.

Let search := searchWord load loadOther formEncode post.
Let handler := callTool load loadOther formEncode post zodTypeMessage.

Lemma parseArguments_valid (args : json) (w : jsstring) :
  parseArguments zodTypeMessage args = inr w <->
  (exists fields, args = JObj fields) /\
  getField args (lit "word") = JStr w /\ w <> [].
Proof.
  unfold parseArguments. split.
  - destruct args as [| | b | x | s | l | fields]; try discriminate.
    destruct (getField (JObj fields) (lit "word")) as [| | b | x | s | l | fs];
      try discriminate.
    destruct s as [|c s]; [discriminate|].
    cbn [List.length Nat.ltb Nat.leb]. intro H. injection H as <-.
    split; [now eexists|]. split; [reflexivity | discriminate].
  - intros ((fields & ->) & Hw & Hne). rewrite Hw.
    destruct w as [|c w]; [congruence | reflexivity].
Qed.

Lemma search_returns (w : jsstring) : exists r, search w = Ret r.
Proof.
  unfold search. apply searchWord_returns.
Qed.

(** A call of the tool with an object whose [word] is a non-empty string
    never throws: it returns one text item under the identifier of the call,
    the formatted entry when the search found one and the notice that names
    the word when it found none. *)
Theorem callTool_valid_request (id : json) (fields : list (jsstring * json))
        (w : jsstring) :
  getField (JObj fields) (lit "word") = JStr w ->
  w <> [] ->
  exists txt,
    handler id Phrase.toolName (JObj fields)
    = Returned (mkResult id [mkContent (lit "text") txt]) /\
    txt <> [] /\
    ((exists entry, search w = Ret (Some entry) /\
                    txt = formatDictionaryEntry entry)
     \/ (search w = Ret None /\
         txt = Phrase.SenResultados ++ w ++ Phrase.NoDicionario)).
Proof.
  intros Hw Hne. unfold handler, callTool.
  assert (Hargs : parseArguments zodTypeMessage (JObj fields) = inr w).
  { apply parseArguments_valid. split; [now eexists | now split]. }
  rewrite Hargs. cbn [Js.eqb negb].
  replace (Js.eqb Phrase.toolName Phrase.toolName) with true by reflexivity.
  cbn [negb]. destruct (search_returns w) as (r & Hr). unfold search in Hr.
  rewrite Hr. destruct r as [entry|].
  - exists (formatDictionaryEntry entry). split; [reflexivity|]. split.
    + destruct (formatDictionaryEntry_head entry) as (rest & -> & _).
      discriminate.
    + left. exists entry. split; [exact Hr | reflexivity].
  - eexists. split; [reflexivity|]. split; [discriminate|].
    right. split; [exact Hr | reflexivity].
Qed.

(** The handler throws in two cases only, an unknown tool name and arguments
    the schema refuses, each with its own message; the general message of
    line 183 is never the one thrown, since [searchWord] catches its own
    errors. *)
Theorem callTool_errors (id : json) (name : jsstring) (args : json) :
  (name <> Phrase.toolName ->
   handler id name args = Raised (Phrase.FerramentaDesconecida ++ name)) /\
  (forall issues,
      name = Phrase.toolName ->
      parseArguments zodTypeMessage args = inl issues ->
      handler id name args
      = Raised (Phrase.ArgumentosInvalidos ++ zodErrorMessages issues)) /\
  (forall message,
      handler id name args = Raised message ->
      (name <> Phrase.toolName
       \/ exists issues, parseArguments zodTypeMessage args = inl issues) /\
      startsWith message Phrase.ErroAoBuscar = false).
Proof.
  unfold handler, callTool. split; [|split].
  - intro Hname. destruct (Js.eqb name Phrase.toolName) eqn:He; [|reflexivity].
    apply jseqb_eq in He. contradiction.
  - intros issues -> Hargs. rewrite Hargs.
    replace (Js.eqb Phrase.toolName Phrase.toolName) with true by reflexivity.
    reflexivity.
  - intros message.
    destruct (Js.eqb name Phrase.toolName) eqn:He; cbn [negb].
    + destruct (parseArguments zodTypeMessage args) as [issues | w] eqn:Hargs.
      * intro H. injection H as <-. split; [right; now exists issues|].
        reflexivity.
      * destruct (search_returns w) as (r & Hr). unfold search in Hr.
        rewrite Hr. discriminate.
    + intro H. injection H as <-. split; [|reflexivity].
      left. intros ->. discriminate He.
Qed.

(** An empty [word] is refused with the message of the schema, before any
    request is made. *)
Theorem callTool_empty_word (id : json) (fields : list (jsstring * json)) :
  getField (JObj fields) (lit "word") = JStr [] ->
  handler id Phrase.toolName (JObj fields)
  = Raised (Phrase.ArgumentosInvalidos ++ lit "word: " ++ Phrase.PalabraBaleira).
Proof.
  intro Hw. unfold handler, callTool, parseArguments. rewrite Hw. reflexivity.
Qed.

(** A request that fails, or is answered with a status other than 200, is
    reported to the caller as a word without results, not as an error. *)
Theorem callTool_failed_request (id : json) (fields : list (jsstring * json))
        (w : jsstring) :
  getField (JObj fields) (lit "word") = JStr w ->
  w <> [] ->
  (post (Request.baseUrl ++ lit "?" ++ formEncode (Request.params w))
        (formEncode (Request.formData w)) = Throw
   \/ exists status data,
       post (Request.baseUrl ++ lit "?" ++ formEncode (Request.params w))
            (formEncode (Request.formData w)) = Ret (status, data)
       /\ status <> 200%N) ->
  handler id Phrase.toolName (JObj fields)
  = Returned (mkResult id
                [mkContent (lit "text")
                           (Phrase.SenResultados ++ w ++ Phrase.NoDicionario)]).
Proof.
  intros Hw Hne Hpost. unfold handler, callTool.
  assert (Hargs : parseArguments zodTypeMessage (JObj fields) = inr w).
  { apply parseArguments_valid. split; [now eexists | now split]. }
  rewrite Hargs.
  replace (Js.eqb Phrase.toolName Phrase.toolName) with true by reflexivity.
  cbn [negb].
  destruct Hpost as [Hp | (status & data & Hp & Hs)].
  - now rewrite (searchWord_rejected load loadOther formEncode post w Hp).
  - now rewrite (searchWord_status load loadOther formEncode post w status data Hp Hs).
Qed.

End HandlerFacts.

(* ------------------------------------------------------------------ *)
(** ** The locator, the search and the handler on sample requests *)

(** Witness: the second item of the sample payload is not looked at. *)
Lemma parseResponse_first_item_only_witness :
  parseResponse (fun _ => Sample.casa) (fun _ => Throw)
                (Sample.payload (JStr (lit "casa"))) (lit "casa")
  = parseResponse (fun _ => Sample.casa) (fun _ => Throw)
                  (JObj [(lit "items",
                          JArr [JObj [(lit "htmlContent", JStr (lit "<div class=Subentry>"));
                                      (lit "title", JStr (lit "casa"))]])])
                  (lit "casa").
Proof.
  eapply parseResponse_first_item_only; reflexivity.
Defined.

(** Witness: with the title "Casa" and without a title. *)
Lemma parseResponse_title_fallback_witness :
  parseResponse (fun _ => Sample.plain) (fun _ => Throw)
                (Sample.payload (JStr (lit " Casa "))) (lit "casa")
  = Ret (Some (mkEntry (lit "Casa") None [] [])) /\
  parseResponse (fun _ => Sample.plain) (fun _ => Throw) Sample.untitled (lit "casa")
  = Ret (Some (mkEntry (lit "casa") None [] [])).
Proof.
  split.
  - pose proof (parseResponse_title_fallback
                  (fun _ => Sample.plain) (fun _ => Throw)
                  (Sample.payload (JStr (lit " Casa "))) (lit "casa")) as H.
    specialize (H _ _ _ eq_refl eq_refl). destruct H as [H _]; [discriminate|].
    apply (H (lit " Casa ")); [reflexivity | discriminate].
  - pose proof (parseResponse_title_fallback
                  (fun _ => Sample.plain) (fun _ => Throw)
                  Sample.untitled (lit "casa")) as H.
    specialize (H _ _ _ eq_refl eq_refl). destruct H as [_ H]; [discriminate|].
    apply H. reflexivity.
Defined.

(** Witness: a numeric title, and a numeric markup field the loader refuses. *)
Lemma parseResponse_swallows_errors_witness :
  parseResponse (fun _ => Sample.casa) (fun _ => Throw)
                (Sample.payload (JNum 7%float)) (lit "casa") = Ret None /\
  parseResponse (fun _ => Sample.casa) (fun _ => Throw)
                (JObj [(lit "items", JArr [JObj [(lit "htmlContent", JBool true)]])])
                (lit "casa") = Ret None.
Proof.
  split.
  - pose proof (parseResponse_swallows_errors
                  (fun _ => Sample.casa) (fun _ => Throw)
                  (Sample.payload (JNum 7%float)) (lit "casa")) as (_ & H & _).
    apply (H _ _ eq_refl); try reflexivity.
    intros t Ht. discriminate Ht.
  - pose proof (parseResponse_swallows_errors
                  (fun _ => Sample.casa) (fun _ => Throw)
                  (JObj [(lit "items", JArr [JObj [(lit "htmlContent", JBool true)]])])
                  (lit "casa")) as (_ & _ & H).
    apply (H _ _ eq_refl); try reflexivity.
    intros t Ht. discriminate Ht.
Defined.

(** Witness: a rejected request, a status 404 and a status 200. *)
Lemma searchWord_soft_failure_witness :
  searchWord (fun _ => Sample.casa) (fun _ => Throw) (fun _ => [])
             (fun _ _ => Throw) (lit "casa") = Ret None /\
  searchWord (fun _ => Sample.casa) (fun _ => Throw) (fun _ => [])
             (fun _ _ => Ret (404%N, JStr (lit "Not Found"))) (lit "casa") = Ret None /\
  searchWord (fun _ => Sample.casa) (fun _ => Throw) (fun _ => [])
             (fun _ _ => Ret (200%N, Sample.untitled)) (lit "casa")
  = parseResponse (fun _ => Sample.casa) (fun _ => Throw) Sample.untitled (lit "casa").
Proof.
  split; [|split].
  - pose proof (searchWord_soft_failure
                  (fun _ => Sample.casa) (fun _ => Throw) (fun _ => [])
                  (fun _ _ => Throw) (lit "casa")) as (_ & H & _).
    apply H. reflexivity.
  - pose proof (searchWord_soft_failure
                  (fun _ => Sample.casa) (fun _ => Throw) (fun _ => [])
                  (fun _ _ => Ret (404%N, JStr (lit "Not Found"))) (lit "casa"))
      as (_ & _ & H & _).
    apply (H 404%N (JStr (lit "Not Found"))); [reflexivity | discriminate].
  - pose proof (searchWord_soft_failure
                  (fun _ => Sample.casa) (fun _ => Throw) (fun _ => [])
                  (fun _ _ => Ret (200%N, Sample.untitled)) (lit "casa"))
      as (_ & _ & _ & H).
    apply H. reflexivity.
Defined.

(** Witness: the entry found for "casa". *)
Lemma searchWord_entry_clean_witness :
  Forall cleanDefinition (definitions (parseDocument Sample.casa (lit "casa"))).
Proof.
  pose proof (searchWord_entry_clean
                (fun _ => Sample.casa) (fun _ => Throw) (fun _ => [])
                (fun _ _ => Ret (200%N, Sample.untitled))
                (lit "casa") (parseDocument Sample.casa (lit "casa")) eq_refl)
    as (_ & H & _).
  exact H.
Defined.

(** Witness: a call for "casa" answered with the sample entry, and one
    answered with an empty item list. *)
Lemma callTool_valid_request_witness :
  (exists txt,
      callTool (fun _ => Sample.casa) (fun _ => Throw) (fun _ => [])
               (fun _ _ => Ret (200%N, Sample.untitled)) (fun _ _ => lit "Required")
               (JNum 1%float) Phrase.toolName
               (JObj (Sample.arguments (JStr (lit "casa"))))
      = Returned (mkResult (JNum 1%float) [mkContent (lit "text") txt]) /\
      txt <> []) /\
  callTool (fun _ => Sample.casa) (fun _ => Throw) (fun _ => [])
           (fun _ _ => Ret (200%N, JObj [(lit "items", JArr [])]))
           (fun _ _ => lit "Required")
           JUndefined Phrase.toolName (JObj (Sample.arguments (JStr (lit "xyz"))))
  = Returned (mkResult JUndefined
                [mkContent (lit "text")
                           (Phrase.SenResultados ++ lit "xyz" ++ Phrase.NoDicionario)]).
Proof.
  split.
  - destruct (callTool_valid_request
                (fun _ => Sample.casa) (fun _ => Throw) (fun _ => [])
                (fun _ _ => Ret (200%N, Sample.untitled)) (fun _ _ => lit "Required")
                (JNum 1%float) (Sample.arguments (JStr (lit "casa"))) (lit "casa")
                eq_refl)
      as (txt & Hcall & Hne & _); [discriminate|].
    exists txt. now split.
  - destruct (callTool_valid_request
                (fun _ => Sample.casa) (fun _ => Throw) (fun _ => [])
                (fun _ _ => Ret (200%N, JObj [(lit "items", JArr [])]))
                (fun _ _ => lit "Required")
                JUndefined (Sample.arguments (JStr (lit "xyz"))) (lit "xyz")
                eq_refl)
      as (txt & Hcall & _ & [(entry & Hs & _) | (_ & ->)]); [discriminate | |].
    + discriminate Hs.
    + exact Hcall.
Defined.

(** Witness: an unknown tool, and arguments without a word. *)
Lemma callTool_errors_witness :
  callTool (fun _ => Sample.casa) (fun _ => Throw) (fun _ => [])
           (fun _ _ => Throw) (fun _ _ => lit "Required")
           JUndefined (lit "lookup") (JObj [])
  = Raised (Phrase.FerramentaDesconecida ++ lit "lookup") /\
  callTool (fun _ => Sample.casa) (fun _ => Throw) (fun _ => [])
           (fun _ _ => Throw) (fun _ _ => lit "Required")
           JUndefined Phrase.toolName (JObj [])
  = Raised (Phrase.ArgumentosInvalidos ++ lit "word: Required").
Proof.
  split.
  - pose proof (callTool_errors
                  (fun _ => Sample.casa) (fun _ => Throw) (fun _ => [])
                  (fun _ _ => Throw) (fun _ _ => lit "Required")
                  JUndefined (lit "lookup") (JObj [])) as (H & _).
    apply H. discriminate.
  - pose proof (callTool_errors
                  (fun _ => Sample.casa) (fun _ => Throw) (fun _ => [])
                  (fun _ _ => Throw) (fun _ _ => lit "Required")
                  JUndefined Phrase.toolName (JObj [])) as (_ & H & _).
    apply (H [mkIssue [lit "word"] (lit "Required")]); reflexivity.
Defined.

(** Witness: a call with an empty word. *)
Lemma callTool_empty_word_witness :
  callTool (fun _ => Sample.casa) (fun _ => Throw) (fun _ => [])
           (fun _ _ => Throw) (fun _ _ => lit "Required")
           JUndefined Phrase.toolName (JObj (Sample.arguments (JStr [])))
  = Raised (Phrase.ArgumentosInvalidos ++ lit "word: A palabra non pode estar baleira.").
Proof.
  apply (callTool_empty_word
           (fun _ => Sample.casa) (fun _ => Throw) (fun _ => [])
           (fun _ _ => Throw) (fun _ _ => lit "Required")
           JUndefined (Sample.arguments (JStr []))).
  reflexivity.
Defined.

(** Witness: a call for "casa" while the dictionary cannot be reached. *)
Lemma callTool_failed_request_witness :
  callTool (fun _ => Sample.casa) (fun _ => Throw) (fun _ => [])
           (fun _ _ => Throw) (fun _ _ => lit "Required")
           JUndefined Phrase.toolName (JObj (Sample.arguments (JStr (lit "casa"))))
  = Returned (mkResult JUndefined
                [mkContent (lit "text")
                           (Phrase.SenResultados ++ lit "casa" ++ Phrase.NoDicionario)]).
Proof.
  apply (callTool_failed_request
           (fun _ => Sample.casa) (fun _ => Throw) (fun _ => [])
           (fun _ _ => Throw) (fun _ _ => lit "Required")
           JUndefined (Sample.arguments (JStr (lit "casa"))) (lit "casa")).
  - reflexivity.
  - discriminate.
  - left. reflexivity.
Defined.

(* ------------------------------------------------------------------ *)
(** ** The top-level senses are read as on the parsed document *)

Lemma path_eqb_eq (p q : path) : path_eqb p q = true -> p = q.
Proof.
  revert q. induction p as [|i p IH]; intros [|j q] H; simpl in H;
    try discriminate; [reflexivity|].
  apply andb_true_iff in H. destruct H as [Hi Hp].
  apply Nat.eqb_eq in Hi. subst j. f_equal. now apply IH.
Qed.

Lemma mapiCat_In_inv {A : Type} (f : nat -> node -> list A) (l : list node) (x : A) :
  forall i, In x (mapiCat f i l) ->
            exists j k, nth_error l j = Some k /\ In x (f (i + j) k).
Proof.
  induction l as [|k0 l IH]; intros i H; [destruct H|].
  simpl in H. apply in_app_or in H. destruct H as [H | H].
  - exists 0, k0. split; [reflexivity | now rewrite Nat.add_0_r].
  - destruct (IH (S i) H) as (j & k & Hj & Hx).
    exists (S j), k. split; [exact Hj | now rewrite Nat.add_succ_r].
Qed.

Lemma below_child (p : path) (i : nat) (x : path) :
  below (p ++ [i]) x -> below p x.
Proof.
  intros (r & Hr & ->). exists (i :: r). split; [discriminate|].
  now rewrite <- app_assoc.
Qed.

Lemma agree_child (p : path) (i : nat) (dt dt' : detset) :
  agree p dt dt' -> agree (p ++ [i]) dt dt'.
Proof.
  intros H r Hr. rewrite <- app_assoc. apply H. discriminate.
Qed.

Lemma agree_below (p r : path) (dt dt' : detset) :
  agree p dt dt' -> agree (p ++ r) dt dt'.
Proof.
  intros H r' Hr'. rewrite <- app_assoc. apply H.
  destruct r; [exact Hr' | discriminate].
Qed.

Lemma descend_agree (dt dt' : detset) (n : node) :
  forall p, agree p dt dt' -> descend dt p n = descend dt' p n.
Proof.
  induction n as [t | t | nm cs ks IH] using node_induction; intros p H;
    try reflexivity.
  simpl. apply mapiCat_ext. intros j k Hj. simpl.
  destruct k as [t | t | nm' cs' ks'] eqn:Hk; try reflexivity.
  rewrite (H [j]) by discriminate.
  destruct (detached dt' (p ++ [j])); [reflexivity|]. f_equal.
  apply nth_error_In in Hj.
  apply (proj1 (Forall_forall _ _) IH _ Hj). now apply agree_child.
Qed.

Lemma textOf_agree (dt dt' : detset) (n : node) :
  forall p, agree p dt dt' -> textOf dt p n = textOf dt' p n.
Proof.
  induction n as [t | t | nm cs ks IH] using node_induction; intros p H;
    try reflexivity.
  simpl. apply mapiCat_ext. intros j k Hj. simpl.
  destruct k as [t | t | nm' cs' ks'] eqn:Hk; try reflexivity.
  rewrite (H [j]) by discriminate.
  destruct (detached dt' (p ++ [j])); [reflexivity|].
  apply nth_error_In in Hj.
  apply (proj1 (Forall_forall _ _) IH _ Hj). now apply agree_child.
Qed.

Lemma descend_below (dt : detset) (n : node) :
  forall p q, In q (descend dt p n) -> below p q.
Proof.
  induction n as [t | t | nm cs ks IH] using node_induction; intros p q H;
    try destruct H.
  simpl in H. apply mapiCat_In_inv in H. destruct H as (j & k & Hj & Hq).
  simpl in Hq. destruct k as [t | t | nm' cs' ks'] eqn:Hk; try destruct Hq.
  destruct (detached dt (p ++ [j])); [destruct Hq|].
  destruct Hq as [<- | Hq].
  - exists [j]. split; [discriminate | reflexivity].
  - apply nth_error_In in Hj. apply (below_child p j).
    apply (proj1 (Forall_forall _ _) IH _ Hj). exact Hq.
Qed.

Lemma find_below (d : dom) (ctx : path) (s : selector) (q : path) :
  In q (find d ctx s) -> below ctx q.
Proof.
  unfold find. destruct (nodeAt (root d) ctx) as [n|]; [|intros []].
  intro H. apply filter_In in H. destruct H as [H _].
  now apply descend_below in H.
Qed.

Lemma find_agree (d d' : dom) (ctx : path) (s : selector) :
  root d' = root d -> agree ctx (det d) (det d') ->
  find d' ctx s = find d ctx s.
Proof.
  intros Hr Ha. unfold find. rewrite Hr.
  destruct (nodeAt (root d) ctx) as [n|]; [|reflexivity].
  now rewrite (descend_agree (det d) (det d') n ctx Ha).
Qed.

Lemma textAt_agree (d d' : dom) (q : path) :
  root d' = root d -> agree q (det d) (det d') -> textAt d' q = textAt d q.
Proof.
  intros Hr Ha. unfold textAt. rewrite Hr.
  destruct (nodeAt (root d) q) as [n|]; [|reflexivity].
  symmetry. now apply textOf_agree.
Qed.

Lemma texts_agree (d d' : dom) (ctx : path) (l : list path) :
  root d' = root d -> agree ctx (det d) (det d') ->
  (forall q, In q l -> below ctx q) ->
  map (textAt d') l = map (textAt d) l.
Proof.
  intros Hr Ha Hl. apply map_ext_in. intros q Hq.
  destruct (Hl q Hq) as (r & _ & ->).
  apply textAt_agree; [exact Hr | now apply agree_below].
Qed.

Lemma first_In (l : list path) (q : path) : In q (first l) -> In q l.
Proof. destruct l as [|x l]; simpl; [tauto | intros [<- | []]; now left]. Qed.

(** A sense reads the same on two DOMs that agree below it. *)
Lemma readSense_agree (d d' : dom) (element : path) :
  root d' = root d -> agree element (det d) (det d') ->
  readSense d' element = readSense d element.
Proof.
  intros Hr Ha.
  assert (Hdef : definitionTextOf d' element = definitionTextOf d element).
  { unfold definitionTextOf, textSel.
    rewrite (find_agree d d' element _ Hr Ha).
    rewrite (texts_agree d d' element _ Hr Ha); [reflexivity|].
    intros q Hq. apply first_In in Hq. now apply find_below in Hq. }
  assert (Hnum : senseNumberOf d' element = senseNumberOf d element).
  { unfold senseNumberOf, textSel.
    rewrite (find_agree d d' element _ Hr Ha).
    rewrite (texts_agree d d' element _ Hr Ha); [reflexivity|].
    intros q Hq. now apply find_below in Hq. }
  assert (Hex : examplesOf d' element = examplesOf d element).
  { unfold examplesOf. rewrite (find_agree d d' element _ Hr Ha).
    rewrite <- !(map_map (textAt _) trim).
    rewrite (texts_agree d d' element _ Hr Ha); [reflexivity|].
    intros q Hq. now apply find_below in Hq. }
  unfold readSense. now rewrite Hdef, Hnum, Hex.
Qed.

Lemma senseStep_readSense (defs : list DefinitionEntry) (d : dom) (element : path) :
  fst (senseStep (defs, d) element) = defs ++ readSense d element.
Proof.
  unfold readSense.
  destruct (isEmpty (definitionTextOf d element)) eqn:He.
  - rewrite senseStep_skip by assumption. now rewrite app_nil_r.
  - rewrite senseStep_push by assumption. cbn [fst].
    now rewrite extractReferences_nil.
Qed.

Lemma fold_left_inv_in {A B : Type} (f : A -> B -> A) (I : A -> Prop) (l : list B) :
  (forall acc x, In x l -> I acc -> I (f acc x)) ->
  forall init, I init -> I (fold_left f l init).
Proof.
  induction l as [|x l IH]; intros Hstep init Hinit; simpl; [assumption|].
  apply IH.
  - intros acc y Hy. apply Hstep. now right.
  - apply Hstep; [now left | assumption].
Qed.

Lemma grown_refl (ctx : path) (d : dom) : grown ctx d d.
Proof.
  split; [reflexivity|]. exists []. split; [now rewrite app_nil_r | constructor].
Qed.

Lemma grown_trans (ctx : path) (d1 d2 d3 : dom) :
  grown ctx d1 d2 -> grown ctx d2 d3 -> grown ctx d1 d3.
Proof.
  intros (Hr1 & e1 & He1 & Hf1) (Hr2 & e2 & He2 & Hf2).
  split; [congruence|]. exists (e1 ++ e2). split.
  - rewrite He2, He1. now rewrite app_assoc.
  - apply Forall_app. now split.
Qed.

Lemma childElems_form (dt : detset) (r : path) (n : node) (x : path) :
  In x (childElems dt r n) -> exists j, x = r ++ [j].
Proof.
  destruct n as [t | t | nm cs ks]; try (intros []).
  unfold childElems. intro H. apply mapiCat_In_inv in H.
  destruct H as (j & k & _ & Hx). simpl in Hx.
  destruct k; try destruct Hx.
  destruct (detached dt (r ++ [j])); [destruct Hx|].
  destruct Hx as [<- | []]. now exists j.
Qed.

Lemma removeChildren_grown (ctx : path) (d : dom) (r : path) :
  below ctx r -> grown ctx d (removeChildren d r).
Proof.
  intros (r0 & _ & ->). unfold removeChildren.
  destruct (nodeAt (root d) (ctx ++ r0)) as [n|]; [|apply grown_refl].
  split; [reflexivity|]. eexists. split; [reflexivity|].
  apply Forall_forall. intros x Hx. apply childElems_form in Hx.
  destruct Hx as (j & ->). exists (r0 ++ [j]). split.
  - destruct r0; discriminate.
  - now rewrite app_assoc.
Qed.

Lemma extractReferences_grown (d : dom) (ctx : path) :
  grown ctx d (snd (extractReferences d ctx)).
Proof.
  unfold extractReferences.
  apply (fold_left_inv_in referencesStep (fun acc => grown ctx d (snd acc))).
  - intros acc r Hr Hacc. rewrite referencesStep_snd.
    apply (grown_trans ctx d (snd acc)); [exact Hacc|].
    apply removeChildren_grown. now apply find_below in Hr.
  - apply grown_refl.
Qed.

Lemma senseStep_grown (defs : list DefinitionEntry) (d : dom) (element : path) :
  grown element d (snd (senseStep (defs, d) element)).
Proof.
  destruct (isEmpty (definitionTextOf d element)) eqn:He.
  - rewrite senseStep_skip by assumption. apply grown_refl.
  - rewrite senseStep_push by assumption. apply extractReferences_grown.
Qed.

(** Detaching nodes below [e] changes nothing below a node [q] that has no
    node in common with [e]. *)
Lemma grown_agree (e q : path) (d d' : dom) :
  grown e d d' ->
  (forall r r', r <> [] -> e ++ r <> q ++ r') ->
  agree q (det d) (det d').
Proof.
  intros (_ & extra & -> & Hextra) Hapart r' _.
  rewrite detached_app.
  assert (Hno : detached extra (q ++ r') = false).
  { unfold detached. induction Hextra as [|x extra (r & Hr & ->) _ IH];
      [reflexivity|].
    simpl. rewrite IH, orb_false_r.
    destruct (path_eqb (q ++ r') (e ++ r)) eqn:Heq; [|reflexivity].
    apply path_eqb_eq in Heq. exfalso. now apply (Hapart r r' Hr). }
  now rewrite Hno, orb_false_r.
Qed.

Lemma children_apart (m : path) (i j : nat) :
  i <> j -> forall r r', (m ++ [i]) ++ r <> (m ++ [j]) ++ r'.
Proof.
  intros Hij r r' H. rewrite <- !app_assoc in H.
  apply app_inv_head in H. simpl in H. congruence.
Qed.

Lemma agree_trans (p : path) (a b c : detset) :
  agree p a b -> agree p b c -> agree p a c.
Proof.
  intros H1 H2 r Hr. now rewrite (H1 r Hr), (H2 r Hr).
Qed.

(** The children of one node, each visited once: every sense yields what it
    yields on the document as parsed. *)
Lemma senseStep_fold_children (doc : node) (m : path) :
  forall (l : list path) (defs : list DefinitionEntry) (d : dom),
    root d = doc ->
    NoDup l ->
    (forall el, In el l -> exists i, el = m ++ [i]) ->
    (forall el, In el l -> agree el [] (det d)) ->
    fst (fold_left senseStep l (defs, d))
    = defs ++ flat_map (readSense (mkDom doc [])) l.
Proof.
  induction l as [|el l IH]; intros defs d Hroot Hnd Hform Hagree.
  - simpl. now rewrite app_nil_r.
  - cbn [fold_left flat_map].
    pose proof (senseStep_readSense defs d el) as Hfst.
    pose proof (senseStep_grown defs d el) as Hgrown.
    destruct (senseStep (defs, d) el) as [defs' d'].
    cbn [fst snd] in Hfst, Hgrown. subst defs'.
    apply NoDup_cons_iff in Hnd. destruct Hnd as [Hnotin Hnd'].
    rewrite (IH (defs ++ readSense d el) d').
    + rewrite <- app_assoc. f_equal. f_equal.
      apply (readSense_agree (mkDom doc []) d el); [exact Hroot|].
      apply Hagree. now left.
    + destruct Hgrown as [Hr _]. congruence.
    + exact Hnd'.
    + intros el' Hel'. apply Hform. now right.
    + intros el' Hel'.
      apply (agree_trans el' [] (det d) (det d')); [apply Hagree; now right|].
      apply (grown_agree el el' d d' Hgrown).
      destruct (Hform el (or_introl eq_refl)) as (i & ->).
      destruct (Hform el' (or_intror Hel')) as (j & ->).
      intros r r' _. apply children_apart. intros ->. contradiction.
Qed.

Lemma mapiCat_NoDup (p : path) (f : nat -> node -> list path) (l : list node) :
  forall i,
    (forall j k, nth_error l j = Some k -> NoDup (f (i + j) k)) ->
    (forall j k x, nth_error l j = Some k -> In x (f (i + j) k) ->
                   exists r, x = p ++ (i + j) :: r) ->
    NoDup (mapiCat f i l).
Proof.
  induction l as [|k0 l IH]; intros i Hnd Hform; [constructor|].
  simpl. apply NoDup_app.
  - specialize (Hnd 0 k0 eq_refl). now rewrite Nat.add_0_r in Hnd.
  - apply IH.
    + intros j k Hj. replace (S i + j) with (i + S j) by lia.
      apply (Hnd (S j) k Hj).
    + intros j k x Hj Hx. replace (S i + j) with (i + S j) in * by lia.
      apply (Hform (S j) k x Hj Hx).
  - intros x Hx Hx'.
    assert (H0 : In x (f (i + 0) k0)) by now rewrite Nat.add_0_r.
    destruct (Hform 0 k0 x eq_refl H0) as (r & Hr).
    apply mapiCat_In_inv in Hx'. destruct Hx' as (j & k & Hj & Hxj).
    replace (S i + j) with (i + S j) in Hxj by lia.
    destruct (Hform (S j) k x Hj Hxj) as (r' & Hr').
    rewrite Hr in Hr'. apply app_inv_head in Hr'. injection Hr' as Hij _. lia.
Qed.

Lemma descend_NoDup (dt : detset) (n : node) :
  forall p, NoDup (descend dt p n).
Proof.
  induction n as [t | t | nm cs ks IH] using node_induction; intro p;
    try constructor.
  simpl. apply (mapiCat_NoDup p).
  - intros j k Hj. simpl.
    destruct k as [t | t | nm' cs' ks'] eqn:Hk; try constructor.
    destruct (detached dt (p ++ [j])); constructor.
    + intro Hin. apply descend_below in Hin. destruct Hin as (r & Hr & Heq).
      apply (f_equal (@List.length nat)) in Heq. rewrite !length_app in Heq.
      destruct r; [congruence | simpl in Heq; lia].
    + apply nth_error_In in Hj. apply (proj1 (Forall_forall _ _) IH _ Hj).
  - intros j k x Hj Hx. simpl in Hx.
    destruct k as [t | t | nm' cs' ks'] eqn:Hk; try destruct Hx.
    destruct (detached dt (p ++ [j])); [destruct Hx|].
    destruct Hx as [<- | Hx]; [now exists []|].
    apply descend_below in Hx. destruct Hx as (r & _ & ->).
    exists r. now rewrite <- app_assoc.
Qed.

Lemma find_NoDup (d : dom) (ctx : path) (s : selector) : NoDup (find d ctx s).
Proof.
  unfold find. destruct (nodeAt (root d) ctx); [|constructor].
  apply NoDup_filter, descend_NoDup.
Qed.

Lemma find_scope_child (d : dom) (ctx : path) (c : simple) (el : path) :
  In el (find d ctx (SelScopeChild c)) -> exists i, el = ctx ++ [i].
Proof.
  intro H. destruct (find_below d ctx _ el H) as (r & Hr & ->).
  unfold find in H. destruct (nodeAt (root d) ctx); [|destruct H].
  apply filter_In in H. destruct H as [_ H]. cbn [matches] in H.
  apply andb_true_iff in H. destruct H as [_ Hlen].
  apply Nat.eqb_eq in Hlen. rewrite length_app in Hlen.
  destruct r as [|i [|j r]]; simpl in Hlen; try lia.
  now exists i.
Qed.

(** The top-level definitions are those of the direct-child senses of the
    first [.Subentry], in document order, each as it reads on the document
    as parsed: what [extractReferences] removed under the senses before it
    does not change what a sense yields.  A sense yields a Definition when
    its definition text is not empty, and that Definition has no
    references. *)
Theorem parseDocument_definitions_as_read (doc : node) (wordTitle : jsstring) :
  definitions (parseDocument doc wordTitle)
  = flat_map (readSense (mkDom doc []))
             (findSel (mkDom doc [])
                      (first (find (mkDom doc []) [] (Sel (Cls Marker.Subentry))))
                      (SelScopeChild (Cls Marker.Sense))).
Proof.
  unfold parseDocument.
  set (d0 := mkDom doc []).
  set (senses := findSel d0 (first (find d0 [] (Sel (Cls Marker.Subentry))))
                         (SelScopeChild (Cls Marker.Sense))).
  assert (Hfold : fst (fold_left senseStep senses ([], d0))
                  = flat_map (readSense d0) senses).
  { unfold senses.
    destruct (first (find d0 [] (Sel (Cls Marker.Subentry)))) as [|m rest] eqn:Hm;
      [reflexivity|].
    assert (Hrest : rest = []).
    { destruct (find d0 [] (Sel (Cls Marker.Subentry))); simpl in Hm; congruence. }
    subst rest. cbn [findSel map concat]. rewrite app_nil_r.
    apply (senseStep_fold_children doc m _ [] d0).
    - reflexivity.
    - apply find_NoDup.
    - intros el Hel. now apply find_scope_child in Hel.
    - intros el _ r _. reflexivity. }
  destruct (fold_left senseStep senses ([], d0)) as [defs d1].
  destruct (fold_left expressionStep (find d1 [] (Sel (Cls Marker.Fraseoloxia)))
                      ([], d1)) as [exprs d2].
  exact Hfold.
Qed.

(* ------------------------------------------------------------------ *)
(** ** When the locator yields an entry *)

Section LocatorShape.

Variable load : jsstring -> node.
Variable loadOther : json -> outcome node.

(** [parseResponse] yields an entry only for an object whose [items] is a
    list with a first item that carries a truthy [htmlContent]; the fallback
    title it then uses is the title of that item when truthy, else the
    searched word. *)
Theorem parseResponse_entry_needs_markup (data : json) (query : jsstring)
        (entry : DictionaryEntry) :
  parseResponse load loadOther data query = Ret (Some entry) ->
  exists fields item rest,
    data = JObj fields /\
    getField data (lit "items") = JArr (item :: rest) /\
    truthy (getOptional item (lit "htmlContent")) = true /\
    parseHtmlContentAny load loadOther
      (getOptional item (lit "htmlContent"))
      (if truthy (getOptional item (lit "title"))
       then getOptional item (lit "title") else JStr query)
    = Ret entry.
Proof.
  intro H.
  destruct data as [| | b | x | s | l | fields];
    try (unfold parseResponse in H; simpl in H; discriminate).
  - unfold parseResponse in H. cbn [truthy typeofObject] in H.
    destruct b; discriminate.
  - unfold parseResponse in H. cbn [truthy typeofObject] in H.
    destruct (negb (is_zero x || is_nan x)); discriminate.
  - unfold parseResponse in H. cbn [truthy typeofObject] in H.
    destruct (negb (isEmpty s)); discriminate.
  - destruct (getField (JObj fields) (lit "items"))
      as [| | b | x | s | l | fs] eqn:Hitems;
      try (unfold parseResponse in H; rewrite Hitems in H; simpl in H;
           repeat match type of H with
                  | context [if ?c then _ else _] => destruct c
                  end; discriminate).
    destruct l as [|item rest];
      [unfold parseResponse in H; rewrite Hitems in H; discriminate|].
    rewrite (parseResponse_first load loadOther _ query item rest Hitems) in H.
    exists fields, item, rest. split; [reflexivity|]. split; [reflexivity|].
    destruct (truthy (getOptional item (lit "htmlContent"))); [|discriminate].
    split; [reflexivity|]. cbn [negb] in H.
    destruct (parseHtmlContentAny load loadOther
                (getOptional item (lit "htmlContent"))
                (if truthy (getOptional item (lit "title"))
                 then getOptional item (lit "title") else JStr query))
      as [e|]; [|discriminate].
    cbn [bind tryCatch] in H. now injection H as <-.
Qed.

End LocatorShape.

(** Witness: the sample payload. *)
Lemma parseResponse_entry_needs_markup_witness :
  exists fields item rest,
    Sample.untitled = JObj fields /\
    getField Sample.untitled (lit "items") = JArr (item :: rest) /\
    truthy (getOptional item (lit "htmlContent")) = true.
Proof.
  destruct (parseResponse_entry_needs_markup
              (fun _ => Sample.casa) (fun _ => Throw)
              Sample.untitled (lit "casa")
              (parseDocument Sample.casa (lit "casa")) eq_refl)
    as (fields & item & rest & H1 & H2 & H3 & _).
  exists fields, item, rest. now split.
Defined.
